(* ===== verification/_CoqProject ===== *)
-Q . S2P
Prelude.v
Word32.v
Sha1.v
Base64.v
AcceptKey.v
Headers.v
Oneshot.v
Responder.v
Lifecycle.v
Echo.v
Client.v
Routes.v
