(* ===== verification/Prelude.v ===== *)
(** * A verification development for rocket-tungstenite

    rocket-tungstenite ([src/src/lib.rs]) turns a Rocket HTTP request into
    a WebSocket stream. Its parts, leaf first:

    - the accept-key deriver [convert_key] (lib.rs 41-50): SHA-1 of the
      client key followed by the RFC 6455 GUID, then base64. The hash and
      the encoding come from the [sha1] and [base64] crates, which are not
      under src/; they are modelled from their standards (FIPS 180-4 and
      RFC 4648) and marked spec_modelled in the manifest.
    - the handshake validator and responder [respond_to] (lib.rs 20-37).
      It reads the [Sec-WebSocket-Key] and [Sec-WebSocket-Version]
      headers, builds the 101 response and registers itself as the
      upgrade handler.
    - the deferred upgrade [on_upgrade] (lib.rs 54-57). It wraps the raw
      connection into a server-role [WebSocketStream] and sends it through
      a tokio oneshot channel.
    - the constructors [new] and [with_config] (lib.rs 65-79). Each
      creates the channel and the responder that owns its sender.
    - the echo example (src/examples/echo.rs). Its route [echo] creates
      the responder and spawns a task that awaits the stream and echoes
      text messages. Its route [index] serves the page whose script
      connects to [echo]. [main] mounts both routes and launches the
      server.

    The parts interact as follows. [main] mounts the routes [index] and
    [echo]. The page that [index] serves opens a WebSocket on [/echo],
    whose request Rocket routes to [echo]. The echo route calls [new], which
    allocates the channel. Rocket's host server calls [respond_to]; it
    writes the response, then calls the boxed [on_upgrade] with the raw
    connection, or drops the handler. [on_upgrade] sends the stream
    through the channel to the route's task, which forwards the text
    messages it reads back to the peer. The page's script sends the
    user's texts as text frames and shows the echoes it receives.

    Files, in dependency order:

    - [Prelude] (this file) holds the shared pieces:
      - Rust's [Result] with the [?] operator as a notation in
        [ws_scope];
      - bytes as [Byte.byte] with their value as [Z];
      - the closure [star] of a step relation and its invariant lemma;
      - block-splitting lemmas shared by the hash and the encoder;
      - the tactics [invc] and [case_match_eq], and the hint databases
        [wsdb] and [wsdb_rw].
    - [Word32]: 32-bit words as [Z] with wrap-around addition and
      rotation, and their range lemmas.
    - [Sha1]: SHA-1 with the streaming hasher that lib.rs drives
      ([Sha1::default], [update], [finalize]). [streaming_equiv] proves
      the streaming hasher equal to the one-shot reference digest.
    - [Base64]: the standard alphabet with padding, an encoder and a
      strict decoder. The decoder inverts the encoder, and the encoded
      length is computed exactly.
    - [AcceptKey]: [WS_GUID] and [convert_key], with the RFC 6455
      example checked by evaluation. The token is base64 of SHA-1 of the
      key followed by the GUID, and it decodes back to that digest.
    - [Headers]: Rocket's [HeaderMap], with case-insensitive names
      (a setoid with [Proper] lookups), [get_one], [add], [replace] and
      the invariant that keys are unique.
    - [Oneshot]: tokio's oneshot channel as a state machine over its
      shared state ([step_fn], [run]). Its invariant holds on every
      reachable state. It refines the spec's hand-off contract, and it
      delivers at most once.
    - [Responder]: [RocketWebsocket], [respond_to], [on_upgrade], [new]
      and [with_config]. The world is a store of channels in a [gmap],
      shared by the two handles. Rust's traits are type classes, and
      [Box<dyn UpgradeResponder>] is a record of its vtable.
      [spec_validate] is spec 4.2's validator on the raw headers; the
      code's check is proved to agree with it, except on a missing
      version and on a repeated key.
    - [Lifecycle]: the host server and the route's task as an
      interleaving step relation [step]. The runtime's dropping of the
      waiting task is a separate relation [cancel], since echo.rs never
      aborts the task. The invariant [sys_inv] holds in every state
      reachable by either. It yields the end-to-end run, the ordering of
      the 101 response before the delivery, the hang-up path (the
      dropped sender resolves the task's [rx.await] to an error), and
      the [io::Error] when the task is gone. Liveness is proved for the
      two parties' own steps, without cancellation. A rank that every
      step lowers gives well-foundedness; from the invariant, every
      reachable state that is not final can step. So every run reaches a
      final state, and no run gets stuck before one.
    - [Echo]: the task's forwarding loop. [take_while] with [unwrap],
      [Forward] and [expect] run against a [Sink] interface with laws;
      the connection's write side is an instance. The loop is proved to
      implement [echo_spec], and its waits are proved unobservable.
    - [Client]: the page's script: the DOM state it touches, its four
      handlers ([onopen], [onclose], [onmessage], the button's
      [onclick]), [WebSocket.send] by the socket's state, and the
      browser's event loop. It has an invariant over every sequence of
      events, and the error paths of the button. Composed with [Echo],
      the user's texts come back and are shown newest first.
    - [Routes]: the index route's page (its text, line by line), the
      route table that [main] mounts, Rocket's dispatch by method and
      path with the [HEAD] fallback, and [serve], which hands [/echo] to
      the echo route of [Lifecycle]. The [404] answers are characterised
      exactly for the requests other than [POST].

    The theorems, by group:
    - functional behaviour of each operation on every branch, errors
      included;
    - the invariants of the channel and of the whole system, by
      induction on runs, and the liveness of the system: every run of
      the two parties ends in a final state;
    - refinement of the tokio channel to the hand-off contract, and of
      the echo loop to [echo_spec];
    - the round trip of base64, and equality of the streaming hasher
      with the reference digest;
    - equivalence of echo runs with and without their waits, up to
      [sink_equiv];
    - the routing of the example's requests by the route table;
    - the page's invariant over every sequence of events;
    - the error paths: the [404] answers of the server, characterised
      exactly for non-[POST] requests, and the task's end on a write
      half that has failed.
    Witnesses evaluate the definitions on concrete requests, traces and
    messages. [convert_key] runs on the RFC example by [vm_compute].

    Bounds and fuel: no definition uses fuel. The hash processes
    [length / 64] blocks by structural recursion on that count. The
    base64 encoder and decoder recurse structurally on their input. The
    echo loop recurses on the finite trace of read events; a trace that
    runs out leaves the task [Suspended], so nothing is assumed about
    an unbounded connection. [usize] counts (the hasher's block count,
    the bit length) are unbounded [Z]; the 64-bit length field is taken
    [mod 2^64], as in the crate.

    Not modelled:
    - the framing of the WebSocket protocol: [WebSocketStream] is its
      socket, role and configuration, and the echo sees the read half as
      a trace of messages;
    - HTTP parsing and socket I/O of the host server, and [launch] in
      [main] (binding the socket and the accept loop);
    - Rocket's rewriting of a [POST]'s method from a [_method] form
      field before routing: the routing theorems leave [POST] out;
    - of the browser, only what the page's script uses: rendering, the
      network and the rest of the DOM are not modelled. The script's
      handlers are modelled from the script.
    The libraries (sha1, base64, Rocket's header map, host and router, tokio's
    channel, tungstenite's stream, futures' combinators) are modelled
    from their documented behaviour; the manifest marks them
    spec_modelled. Each is modelled as far as the repository uses it;
    their other operations (for instance [HeaderMap::remove], or the
    read side of a [WebSocketStream]) are not.

    Everything under src/ that computes is modelled. The lines left out
    hold no logic: the [use] declarations, the re-exports
    [pub use tokio_tungstenite::{tungstenite, WebSocketStream}],
    [#[derive(Debug)]], the doc comments, and in echo.rs the module
    comment and imports. Going further would mean modelling the
    libraries themselves, beyond what the repository relies on.

    What the modelling showed:
    - a missing [Sec-WebSocket-Version] header is rejected, where the
      spec tolerates it;
    - the channel exists before validation and is hung up on rejection;
    - a repeated key is accepted, and its first value is used;
    - in the example, a non-text message ends the echo, and a read
      error panics in [unwrap], so it never reaches [expect];
    - any key value is accepted, also an empty one, where RFC 6455
      requires a 16-byte nonce;
    - the page's Send button throws before the socket opens, and
      silently drops the text once it is closed. *)

From Stdlib Require Import String Ascii List ZArith Lia.
From Stdlib Require Strings.Byte.

Import ListNotations.
Local Open Scope Z_scope.

Declare Scope ws_scope.
Delimit Scope ws_scope with ws.

(** ** Rust's [Result] and the [?] operator *)

Inductive result (T E : Type) : Type :=
| Ok (t : T)
| Err (e : E).
Arguments Ok {T E} t.
Arguments Err {T E} e.

(** [x <-? c ;; k] is Rust's [let x = c?; k]: an [Err] returns early. *)
Notation "x <-? c ;; k" :=
  (match c with Ok x => k | Err e => Err e end)
  (at level 60, c at next level, right associativity) : ws_scope.

(** [let x = c?; k] on an [Option]. *)
Notation "x <-o c ;; k" :=
  (match c with Some x => k | None => None end)
  (at level 60, c at next level, right associativity) : ws_scope.

(** [Option::ok_or]. *)
Definition ok_or {T E : Type} (o : option T) (e : E) : result T E :=
  match o with Some t => Ok t | None => Err e end.

(** [Result::map_err]. *)
Definition map_err {T E F : Type} (f : E -> F) (r : result T E) : result T F :=
  match r with Ok t => Ok t | Err e => Err (f e) end.

Definition is_ok {T E : Type} (r : result T E) : bool :=
  match r with Ok _ => true | Err _ => false end.

(** ** Bytes *)

Abbreviation byte := Byte.byte.

(** The unsigned value of a byte. *)
Definition byte_val (b : byte) : Z := Z.of_N (Byte.to_N b).

(** The byte of the low 8 bits of [z] ([z as u8] in Rust). *)
Definition byte_of_Z (z : Z) : byte :=
  match Byte.of_N (Z.to_N (z mod 256)) with
  | Some b => b
  | None => Byte.x00
  end.

(** [str::as_bytes]. *)
Definition as_bytes (s : string) : list byte := String.list_byte_of_string s.

(** ** Tactics and the hint database *)

Create HintDb wsdb.
Create Rewrite HintDb wsdb_rw.

Ltac invc H := inversion H; subst; clear H.

(** Case on the scrutinee of the first [match] in the goal, keeping its
    equation. *)
Ltac case_match_eq :=
  match goal with
  | |- context [match ?x with _ => _ end] => destruct x eqn:?
  end.

(** ** Sequences of transitions *)

Section Star.
Context {A : Type} (R : A -> A -> Prop).

(** Zero or more transitions. *)
Inductive star : A -> A -> Prop :=
| star_refl a : star a a
| star_step a b c : R a b -> star b c -> star a c.

Lemma star_one (a b : A) : R a b -> star a b.
Proof. intros H. eapply star_step; [exact H | apply star_refl]. Qed.

Lemma star_trans (a b c : A) : star a b -> star b c -> star a c.
Proof. induction 1; intros; [assumption | eapply star_step; eauto]. Qed.

(** A property that every transition preserves holds along sequences. *)
Lemma star_invariant (P : A -> Prop) :
  (forall a b, P a -> R a b -> P b) -> forall a b, star a b -> P a -> P b.
Proof. intros Hpres a b H. induction H; eauto. Qed.

End Star.

(** Sequences of a smaller relation are sequences of the larger one. *)
Lemma star_incl {A : Type} (R R' : A -> A -> Prop) :
  (forall a b, R a b -> R' a b) -> forall a b, star R a b -> star R' a b.
Proof. intros H a b S. induction S; econstructor; eauto. Qed.

#[export] Hint Constructors star : wsdb.

(** ** Generic lemmas *)

Lemma byte_val_range (b : byte) : 0 <= byte_val b < 256.
Proof.
  unfold byte_val. pose proof (Byte.to_N_bounded b). lia.
Qed.

Lemma byte_val_of_Z (z : Z) : byte_val (byte_of_Z z) = z mod 256.
Proof.
  unfold byte_val, byte_of_Z.
  pose proof (Z.mod_pos_bound z 256 ltac:(lia)) as Hr.
  destruct (Byte.of_N (Z.to_N (z mod 256))) eqn:E.
  - apply Byte.to_of_N in E. rewrite E. lia.
  - apply Byte.of_N_None_iff in E. lia.
Qed.

Lemma byte_val_inj (a b : byte) : byte_val a = byte_val b -> a = b.
Proof.
  unfold byte_val. intros H. apply N2Z.inj in H.
  pose proof (Byte.of_to_N a) as Ea. pose proof (Byte.of_to_N b) as Eb.
  congruence.
Qed.

Lemma byte_of_Z_val (b : byte) : byte_of_Z (byte_val b) = b.
Proof.
  apply byte_val_inj. rewrite byte_val_of_Z.
  apply Z.mod_small, byte_val_range.
Qed.

Lemma byte_of_Z_mod (z : Z) : byte_of_Z (z mod 256) = byte_of_Z z.
Proof.
  apply byte_val_inj. rewrite !byte_val_of_Z. apply Z.mod_mod. lia.
Qed.

#[export] Hint Resolve byte_val_range : wsdb.
#[export] Hint Rewrite byte_val_of_Z byte_of_Z_val : wsdb_rw.

(** Splitting a list at the end of a prefix of known length. *)
Lemma firstn_app_exact {A : Type} (n : nat) (l1 l2 : list A) :
  length l1 = n -> firstn n (l1 ++ l2) = l1.
Proof.
  intros <-. rewrite firstn_app, Nat.sub_diag, firstn_all. simpl.
  apply app_nil_r.
Qed.

Lemma skipn_app_exact {A : Type} (n : nat) (l1 l2 : list A) :
  length l1 = n -> skipn n (l1 ++ l2) = l2.
Proof.
  intros <-. rewrite skipn_app, Nat.sub_diag, skipn_all. reflexivity.
Qed.

Lemma firstn_app_long {A : Type} (n : nat) (l1 l2 : list A) :
  (n <= length l1)%nat -> firstn n (l1 ++ l2) = firstn n l1.
Proof.
  intros H. rewrite firstn_app.
  replace (n - length l1)%nat with 0%nat by lia. apply app_nil_r.
Qed.

Lemma skipn_app_long {A : Type} (n : nat) (l1 l2 : list A) :
  (n <= length l1)%nat -> skipn n (l1 ++ l2) = skipn n l1 ++ l2.
Proof.
  intros H. rewrite skipn_app.
  replace (n - length l1)%nat with 0%nat by lia. reflexivity.
Qed.

#[export] Hint Resolve firstn_app_exact skipn_app_exact : wsdb.

Lemma as_bytes_inj (s s' : string) : as_bytes s = as_bytes s' -> s = s'.
Proof.
  intros H. rewrite <- (String.string_of_list_byte_of_string s),
    <- (String.string_of_list_byte_of_string s'). unfold as_bytes in H. rewrite H. reflexivity.
Qed.

(** [find] is the head of [filter]. *)
Lemma find_hd_filter {A : Type} (f : A -> bool) (l : list A) :
  find f l = hd_error (filter f l).
Proof. induction l as [|a l IH]; cbn; [reflexivity | destruct (f a); [reflexivity | exact IH]]. Qed.

Lemma length_string_of_list_ascii (l : list Ascii.ascii) :
  String.length (String.string_of_list_ascii l) = length l.
Proof. induction l as [|c l IH]; simpl; [reflexivity | rewrite IH; reflexivity]. Qed.
