(* ===== verification/Word32.v ===== *)
(** * 32-bit words

    The [u32] arithmetic that SHA-1 is written in: words are [Z] values in
    [0, 2^32), addition wraps around ([u32::wrapping_add]), rotation is
    [u32::rotate_left], and words are read from and written to big-endian
    bytes ([u32::from_be_bytes], [u32::to_be_bytes]). The lemmas give the
    range of every operation and the byte round trip. *)

From Stdlib Require Import List ZArith Lia.
From S2P Require Import Prelude.

Import ListNotations.
Local Open Scope Z_scope.

Definition in32 (x : Z) : Prop := 0 <= x < 2 ^ 32.

(** [u32::wrapping_add]. *)
Definition add32 (a b : Z) : Z := (a + b) mod 2 ^ 32.

(** [!x] on a [u32]. *)
Definition not32 (x : Z) : Z := Z.lxor x (Z.ones 32).

(** [u32::rotate_left] for [0 <= n <= 32]. *)
Definition rotl32 (n x : Z) : Z :=
  Z.lor (Z.shiftl x n mod 2 ^ 32) (Z.shiftr x (32 - n)).

(** [u32::from_be_bytes] on four bytes. *)
Definition be32_to_word (b0 b1 b2 b3 : byte) : Z :=
  Z.lor (Z.shiftl (byte_val b0) 24)
    (Z.lor (Z.shiftl (byte_val b1) 16)
       (Z.lor (Z.shiftl (byte_val b2) 8) (byte_val b3))).

(** [u32::to_be_bytes]. *)
Definition word_to_be32 (w : Z) : list byte :=
  [byte_of_Z (Z.shiftr w 24); byte_of_Z (Z.shiftr w 16);
   byte_of_Z (Z.shiftr w 8); byte_of_Z w].

(** [u64::to_be_bytes]. *)
Definition word_to_be64 (w : Z) : list byte :=
  word_to_be32 (Z.shiftr w 32) ++ word_to_be32 w.

(** ** Ranges *)

(** A non-negative [x] is below [2^n] exactly when its bits from [n] up
    are clear. *)
Lemma range_testbit (n x : Z) :
  0 <= n ->
  (0 <= x < 2 ^ n <-> 0 <= x /\ forall i, n <= i -> Z.testbit x i = false).
Proof.
  intros Hn. split.
  - intros [H0 H1]. split; [lia |]. intros i Hi.
    destruct (Z.eq_dec x 0) as [-> | Hx]; [apply Z.bits_0 |].
    apply Z.bits_above_log2; [lia |].
    apply Z.log2_lt_pow2 in H1; lia.
  - intros [H0 Hb]. split; [lia |].
    destruct (Z.lt_ge_cases x (2 ^ n)) as [Hlt | Hge]; [assumption | exfalso].
    assert (Hl : n <= Z.log2 x).
    { apply Z.log2_le_pow2; lia. }
    pose proof (Z.bit_log2 x ltac:(lia)) as Hbit.
    rewrite (Hb _ Hl) in Hbit. discriminate.
Qed.

Lemma add32_range (a b : Z) : in32 (add32 a b).
Proof. unfold in32, add32. apply Z.mod_pos_bound. lia. Qed.

Lemma add32_small (a b : Z) : 0 <= a + b < 2 ^ 32 -> add32 a b = a + b.
Proof. unfold add32. apply Z.mod_small. Qed.

(** The overflow behaviour of [u32::wrapping_add]: a sum of two
    words that does not fit in 32 bits is reduced by exactly [2^32]. *)
Lemma add32_wrap (a b : Z) :
  in32 a -> in32 b -> 2 ^ 32 <= a + b -> add32 a b = a + b - 2 ^ 32.
Proof.
  unfold in32, add32. intros Ha Hb Hs.
  rewrite <- (Z.mod_small (a + b - 2 ^ 32) (2 ^ 32)) by lia.
  replace (a + b) with (a + b - 2 ^ 32 + 1 * 2 ^ 32) at 1 by lia.
  apply Z.mod_add. lia.
Qed.

Lemma lor_range (a b : Z) : in32 a -> in32 b -> in32 (Z.lor a b).
Proof.
  unfold in32. intros Ha Hb.
  apply range_testbit in Ha, Hb; try lia. apply range_testbit; [lia |].
  split; [apply Z.lor_nonneg; lia |].
  intros i Hi. rewrite Z.lor_spec, (proj2 Ha i Hi), (proj2 Hb i Hi). reflexivity.
Qed.

Lemma lxor_range (a b : Z) : in32 a -> in32 b -> in32 (Z.lxor a b).
Proof.
  unfold in32. intros Ha Hb.
  apply range_testbit in Ha, Hb; try lia. apply range_testbit; [lia |].
  split; [apply Z.lxor_nonneg; lia |].
  intros i Hi. rewrite Z.lxor_spec, (proj2 Ha i Hi), (proj2 Hb i Hi). reflexivity.
Qed.

Lemma land_range (a b : Z) : in32 a -> in32 b -> in32 (Z.land a b).
Proof.
  unfold in32. intros Ha Hb.
  apply range_testbit in Ha, Hb; try lia. apply range_testbit; [lia |].
  split; [apply Z.land_nonneg; lia |].
  intros i Hi. rewrite Z.land_spec, (proj2 Ha i Hi). reflexivity.
Qed.

Lemma ones32_range : in32 (Z.ones 32).
Proof. unfold in32. rewrite Z.ones_equiv. cbn. lia. Qed.

Lemma not32_range (x : Z) : in32 x -> in32 (not32 x).
Proof. intros Hx. apply lxor_range; [exact Hx | exact ones32_range]. Qed.

Lemma rotl32_range (n x : Z) : 0 <= n <= 32 -> in32 x -> in32 (rotl32 n x).
Proof.
  intros Hn Hx. unfold rotl32. apply lor_range.
  - unfold in32. apply Z.mod_pos_bound. lia.
  - unfold in32 in *. split; [apply Z.shiftr_nonneg; lia |].
    rewrite Z.shiftr_div_pow2 by lia.
    assert (0 < 2 ^ (32 - n)) by (apply Z.pow_pos_nonneg; lia).
    apply Z.div_lt_upper_bound; [lia | nia].
Qed.

#[export] Hint Resolve add32_range lor_range lxor_range land_range
  not32_range rotl32_range : wsdb.

(** ** Big-endian bytes *)

Lemma word_to_be32_length (w : Z) : length (word_to_be32 w) = 4%nat.
Proof. reflexivity. Qed.

Lemma word_to_be64_length (w : Z) : length (word_to_be64 w) = 8%nat.
Proof. reflexivity. Qed.
