(* ===== verification/Sha1.v ===== *)
(** * SHA-1 (the [sha1] crate)

    lib.rs's [convert_key] hashes with [sha1::Sha1::default()], two calls
    of [update] and [finalize()]. The crate is not under src/, so it is
    modelled from FIPS 180-4, section 6.1, the way the crate is written:
    a core state of five words [h] and a count [block_len] of compressed
    blocks ([Sha1Core]), and an eager block buffer that always holds less
    than one block ([BlockBuffer<U64, Eager>]). [finalize] pads the
    buffered tail with [0x80], zeros and the 64-bit big-endian bit length,
    in one block or two.

    The reference digest [sha1] pads the whole message at once. The main
    theorem, [streaming_equiv], shows that any sequence of [update] calls
    followed by [finalize] computes [sha1] of the concatenated input. *)

From Stdlib Require Import String List ZArith Lia.
From S2P Require Import Prelude Word32.

Import ListNotations.
Local Open Scope Z_scope.

Module Sha1.

(** ** The compression function (FIPS 180-4, 6.1.2) *)

(** The five chaining words [h: [u32; 5]]. *)
Record words5 := mk5 { w0 : Z; w1 : Z; w2 : Z; w3 : Z; w4 : Z }.

(** FIPS 180-4, 5.3.1. *)
Definition H0 : words5 :=
  mk5 0x67452301 0xEFCDAB89 0x98BADCFE 0x10325476 0xC3D2E1F0.

(** FIPS 180-4, 4.1.1: [Ch], [Parity] and [Maj] by round. *)
Definition f (t : nat) (x y z : Z) : Z :=
  if (t <? 20)%nat then Z.lxor (Z.land x y) (Z.land (not32 x) z)
  else if (t <? 40)%nat then Z.lxor (Z.lxor x y) z
  else if (t <? 60)%nat then Z.lxor (Z.lxor (Z.land x y) (Z.land x z)) (Z.land y z)
  else Z.lxor (Z.lxor x y) z.

(** FIPS 180-4, 4.2.1. *)
Definition K (t : nat) : Z :=
  if (t <? 20)%nat then 0x5A827999
  else if (t <? 40)%nat then 0x6ED9EBA1
  else if (t <? 60)%nat then 0x8F1BBCDC
  else 0xCA62C1D6.

(** The sixteen big-endian words of a block. *)
Fixpoint block_words (bs : list byte) : list Z :=
  match bs with
  | b0 :: b1 :: b2 :: b3 :: rest => be32_to_word b0 b1 b2 b3 :: block_words rest
  | _ => []
  end.

(** The message schedule [W_0 .. W_79] (6.1.2, step 1), built from the
    first sixteen words by appending
    [W_t = ROTL1(W_{t-3} xor W_{t-8} xor W_{t-14} xor W_{t-16})]. *)
Definition schedule (m : list Z) : list Z :=
  fold_left
    (fun (w : list Z) (t : nat) =>
       w ++ [rotl32 1 (Z.lxor (Z.lxor (Z.lxor (nth (t - 3) w 0) (nth (t - 8) w 0))
                                 (nth (t - 14) w 0)) (nth (t - 16) w 0))])
    (seq 16 64) (firstn 16 m).

(** One round (6.1.2, step 3) on the working variables [a..e]. *)
Definition round (w : list Z) (v : words5) (t : nat) : words5 :=
  let 'mk5 a b c d e := v in
  let T := add32 (add32 (add32 (add32 (rotl32 5 a) (f t b c d)) e) (K t)) (nth t w 0) in
  mk5 T a (rotl32 30 b) c d.

(** The compression of one 64-byte block into the chaining words
    (6.1.2, steps 2 to 4). *)
Definition compress (h : words5) (block : list byte) : words5 :=
  let w := schedule (block_words block) in
  let v := fold_left (round w) (seq 0 80) h in
  mk5 (add32 (w0 h) (w0 v)) (add32 (w1 h) (w1 v)) (add32 (w2 h) (w2 v))
      (add32 (w3 h) (w3 v)) (add32 (w4 h) (w4 v)).

(** Compress the first [k] blocks of [bs]. *)
Fixpoint process_blocks (k : nat) (h : words5) (bs : list byte) : words5 :=
  match k with
  | O => h
  | S k' => process_blocks k' (compress h (firstn 64 bs)) (skipn 64 bs)
  end.

(** The digest: the five words in big-endian order. *)
Definition digest_bytes (h : words5) : list byte :=
  word_to_be32 (w0 h) ++ word_to_be32 (w1 h) ++ word_to_be32 (w2 h)
  ++ word_to_be32 (w3 h) ++ word_to_be32 (w4 h).

(** ** The reference digest (FIPS 180-4, 5.1.1) *)

(** Zero bytes between the [0x80] marker and the length field. *)
Definition pad_zeros (len : nat) : nat := ((119 - len mod 64) mod 64)%nat.

Definition pad (msg : list byte) : list byte :=
  msg ++ [Byte.x80] ++ repeat Byte.x00 (pad_zeros (length msg))
  ++ word_to_be64 ((8 * Z.of_nat (length msg)) mod 2 ^ 64).

Definition sha1 (msg : list byte) : list byte :=
  let p := pad msg in
  digest_bytes (process_blocks (length p / 64) H0 p).

(** ** The streaming hasher of the crate *)

(** [Sha1]: the core state and the eager block buffer. *)
Record Sha1 := mkSha1 {
  sha_h : words5;
  sha_block_len : Z;
  sha_buffer : list byte
}.

(** [Sha1::default()]. *)
Definition default : Sha1 := mkSha1 H0 0 [].

(** [Digest::update]: the buffered bytes and the input are compressed
    block by block; the tail shorter than a block stays buffered. *)
Definition update (s : Sha1) (input : list byte) : Sha1 :=
  let data := sha_buffer s ++ input in
  let n := (length data / 64)%nat in
  mkSha1 (process_blocks n (sha_h s) data)
         (sha_block_len s + Z.of_nat n)
         (skipn (64 * n) data).

(** [Digest::finalize]: [len64_padding_be] of the block buffer, then the
    words in big-endian order. The bit length is a wrapping [u64]. *)
Definition finalize (s : Sha1) : list byte :=
  let buf := sha_buffer s in
  let pos := length buf in
  let bit_len := (8 * (Z.of_nat pos + sha_block_len s * 64)) mod 2 ^ 64 in
  let h :=
    if (56 <=? pos)%nat
    then compress
           (compress (sha_h s) (buf ++ [Byte.x80] ++ repeat Byte.x00 (63 - pos)))
           (repeat Byte.x00 56 ++ word_to_be64 bit_len)
    else compress (sha_h s)
           (buf ++ [Byte.x80] ++ repeat Byte.x00 (55 - pos) ++ word_to_be64 bit_len) in
  digest_bytes h.

(** ** Lemmas *)

Lemma digest_bytes_length (h : words5) : length (digest_bytes h) = 20%nat.
Proof. reflexivity. Qed.

(** Compressing [k] blocks reads only the first [64 * k] bytes. *)
Lemma process_blocks_app_l (k : nat) (h : words5) (l r : list byte) :
  (64 * k <= length l)%nat -> process_blocks k h (l ++ r) = process_blocks k h l.
Proof.
  revert h l. induction k as [|k IH]; intros h l Hl; [reflexivity |].
  cbn [process_blocks]. rewrite firstn_app_long, skipn_app_long by lia.
  apply IH. rewrite length_skipn. lia.
Qed.

(** Compressing [k1 + k2] blocks is compressing [k1], then [k2] more. *)
Lemma process_blocks_add (k1 k2 : nat) (h : words5) (l : list byte) :
  process_blocks (k1 + k2) h l
  = process_blocks k2 (process_blocks k1 h l) (skipn (64 * k1) l).
Proof.
  revert h l. induction k1 as [|k1 IH]; intros h l; [reflexivity |].
  cbn [process_blocks Nat.add]. rewrite IH, skipn_skipn. f_equal. f_equal. lia.
Qed.

Lemma process_blocks_one (h : words5) (blk : list byte) :
  length blk = 64%nat -> process_blocks 1 h blk = compress h blk.
Proof. intros H. cbn [process_blocks]. rewrite firstn_all2 by lia. reflexivity. Qed.

Lemma process_blocks_two (h : words5) (b1 b2 : list byte) :
  length b1 = 64%nat -> length b2 = 64%nat ->
  process_blocks 2 h (b1 ++ b2) = compress (compress h b1) b2.
Proof.
  intros H1 H2. cbn [process_blocks].
  rewrite firstn_app_exact, skipn_app_exact by assumption.
  rewrite firstn_all2 by lia. reflexivity.
Qed.

Lemma pad_length (msg : list byte) :
  length (pad msg) = (length msg + 1 + pad_zeros (length msg) + 8)%nat.
Proof.
  unfold pad. rewrite !length_app, repeat_length, word_to_be64_length. simpl. lia.
Qed.

(** [absorbed s m]: the hasher [s] has consumed the message [m]. Its
    words are the compression of the complete blocks of [m], and the
    buffer holds the remaining tail, shorter than a block. *)
Definition absorbed (s : Sha1) (m : list byte) : Prop :=
  exists k : nat,
    sha_block_len s = Z.of_nat k /\
    length m = (64 * k + length (sha_buffer s))%nat /\
    (length (sha_buffer s) < 64)%nat /\
    sha_buffer s = skipn (64 * k) m /\
    sha_h s = process_blocks k H0 m.

Lemma absorbed_default : absorbed default [].
Proof. exists 0%nat. repeat split; simpl; lia. Qed.

(** [update] consumes its input. *)
Lemma update_absorbed (s : Sha1) (m input : list byte) :
  absorbed s m -> absorbed (update s input) (m ++ input).
Proof.
  intros (k & Hbl & Hlen & Hbuf & Htail & Hh).
  set (data := sha_buffer s ++ input).
  assert (Hd : data = skipn (64 * k) (m ++ input)).
  { unfold data. rewrite Htail, skipn_app_long by lia. reflexivity. }
  assert (Hdl : length data = (length (sha_buffer s) + length input)%nat).
  { unfold data. apply length_app. }
  exists (k + length data / 64)%nat. cbn [update sha_h sha_block_len sha_buffer].
  fold data.
  pose proof (Nat.div_mod_eq (length data) 64) as Hdm.
  pose proof (Nat.mod_upper_bound (length data) 64 ltac:(lia)) as Hmb.
  repeat split.
  - rewrite Hbl. lia.
  - rewrite length_skipn, length_app. lia.
  - rewrite length_skipn. lia.
  - rewrite Hd, skipn_skipn. f_equal. lia.
  - rewrite process_blocks_add, Hh, Hd, process_blocks_app_l by lia. reflexivity.
Qed.

Lemma pad_zeros_tail (k pos : nat) :
  (pos < 64)%nat ->
  pad_zeros (64 * k + pos) = (if (56 <=? pos)%nat then 119 - pos else 55 - pos)%nat.
Proof.
  intros Hp. unfold pad_zeros.
  replace ((64 * k + pos) mod 64)%nat with pos.
  - destruct (Nat.leb_spec 56 pos).
    + apply Nat.mod_small. lia.
    + replace (119 - pos)%nat with ((55 - pos) + 1 * 64)%nat by lia.
      rewrite Nat.Div0.mod_add. apply Nat.mod_small. lia.
  - rewrite Nat.add_comm, Nat.mul_comm, Nat.Div0.mod_add. symmetry.
    apply Nat.mod_small. exact Hp.
Qed.

(** [finalize] of a hasher that has consumed [m] is the digest of [m]. *)
Lemma finalize_absorbed (s : Sha1) (m : list byte) :
  absorbed s m -> finalize s = sha1 m.
Proof.
  intros (k & Hbl & Hlen & Hbuf & Htail & Hh).
  destruct s as [h bl buf]; cbn [sha_h sha_block_len sha_buffer] in *; subst bl h.
  set (pos := length buf) in *.
  assert (Hbits : (8 * (Z.of_nat pos + Z.of_nat k * 64)) mod 2 ^ 64
                  = (8 * Z.of_nat (length m)) mod 2 ^ 64) by (f_equal; lia).
  unfold sha1, finalize. cbn [sha_h sha_block_len sha_buffer]. fold pos. rewrite Hbits.
  rewrite pad_length, Hlen, pad_zeros_tail by lia.
  unfold pad. rewrite Hlen, pad_zeros_tail by lia.
  destruct (Nat.leb_spec 56 pos) as [Hge | Hlt].
  - replace ((64 * k + pos + 1 + (119 - pos) + 8) / 64)%nat with (k + 2)%nat
      by (apply Nat.div_unique with 0%nat; lia).
    rewrite process_blocks_add, process_blocks_app_l by lia.
    rewrite skipn_app_long, <- Htail by lia.
    replace (119 - pos)%nat with ((63 - pos) + 56)%nat by lia.
    rewrite repeat_app.
    match goal with
    | |- context [buf ++ [Byte.x80] ++ (?r1 ++ ?r2) ++ ?w] =>
        replace (buf ++ [Byte.x80] ++ (r1 ++ r2) ++ w)
          with ((buf ++ [Byte.x80] ++ r1) ++ (r2 ++ w)) by (rewrite <- !app_assoc; reflexivity)
    end.
    rewrite process_blocks_two; [reflexivity | |].
    + rewrite !length_app, repeat_length. cbn [length]. unfold pos in *. lia.
    + rewrite length_app, repeat_length, word_to_be64_length. reflexivity.
  - replace ((64 * k + pos + 1 + (55 - pos) + 8) / 64)%nat with (k + 1)%nat
      by (apply Nat.div_unique with 0%nat; lia).
    rewrite process_blocks_add, process_blocks_app_l by lia.
    rewrite skipn_app_long, <- Htail by lia.
    rewrite process_blocks_one; [reflexivity |].
    rewrite !length_app, repeat_length, word_to_be64_length. cbn [length]. unfold pos in *. lia.
Qed.

Lemma fold_update_absorbed (chunks : list (list byte)) (s : Sha1) (m : list byte) :
  absorbed s m -> absorbed (fold_left update chunks s) (m ++ concat chunks).
Proof.
  revert s m. induction chunks as [|c cs IH]; intros s m H.
  - simpl. rewrite app_nil_r. exact H.
  - simpl. rewrite app_assoc. apply IH, update_absorbed, H.
Qed.

(** Two [update] calls hash the concatenation of their inputs. *)
Lemma update2_finalize (a b : list byte) :
  finalize (update (update default a) b) = sha1 (a ++ b).
Proof.
  apply finalize_absorbed, update_absorbed.
  exact (update_absorbed default [] a absorbed_default).
Qed.

(** The streaming hasher is SHA-1: any sequence of [update] calls on
    [Sha1::default()] followed by [finalize] yields the reference digest of
    the concatenated input. *)
Theorem streaming_equiv (chunks : list (list byte)) :
  finalize (fold_left update chunks default) = sha1 (concat chunks).
Proof.
  apply finalize_absorbed. apply (fold_update_absorbed chunks default []).
  exact absorbed_default.
Qed.

(** FIPS 180-4, appendix A.1: the digest of "abc" is
    [a9993e36 4706816a ba3e2571 7850c26c 9cd0d89d]. *)
Example sha1_abc :
  sha1 (as_bytes "abc"%string)
  = map byte_of_Z [0xa9; 0x99; 0x3e; 0x36; 0x47; 0x06; 0x81; 0x6a; 0xba; 0x3e;
                   0x25; 0x71; 0x78; 0x50; 0xc2; 0x6c; 0x9c; 0xd0; 0xd8; 0x9d].
Proof. vm_compute. reflexivity. Qed.

(** The reference digest has 20 bytes, and its padded message is a whole
    number of blocks. *)
Lemma sha1_length (msg : list byte) : length (sha1 msg) = 20%nat.
Proof. apply digest_bytes_length. Qed.

Lemma pad_blocks (msg : list byte) : (length (pad msg) mod 64 = 0)%nat.
Proof.
  rewrite pad_length. generalize (length msg) as n. intros n.
  pose proof (Nat.div_mod_eq n 64) as Hn.
  pose proof (Nat.mod_upper_bound n 64 ltac:(lia)) as Hr.
  remember (n / 64)%nat as q. remember (n mod 64)%nat as r.
  clear Heqq Heqr. subst n. rewrite pad_zeros_tail by exact Hr.
  destruct (Nat.leb_spec 56 r).
  - replace (64 * q + r + 1 + (119 - r) + 8)%nat with ((q + 2) * 64)%nat by lia.
    apply Nat.Div0.mod_mul.
  - replace (64 * q + r + 1 + (55 - r) + 8)%nat with ((q + 1) * 64)%nat by lia.
    apply Nat.Div0.mod_mul.
Qed.

End Sha1.
