(* ===== verification/Base64.v ===== *)
(** * Base64 (the [base64] crate)

    lib.rs's [convert_key] returns [base64::encode(sha1.finalize())]. The
    crate is not under src/; [encode] is modelled from RFC 4648, section
    4, with the crate's [STANDARD] configuration: the alphabet
    [A-Z a-z 0-9 + /] and [=] padding. Each group of three bytes is read
    as a 24-bit number and written as four 6-bit digits; a final group of
    one or two bytes is completed with zero bytes and padded.

    [decode] is the strict RFC 4648 decoder. It rejects non-alphabet
    characters, misplaced padding and non-zero trailing bits. It is not
    code of the repository: it states what the encoding preserves. The
    theorems show that [decode] inverts [encode] and that the encoded
    length is [4 * ceil(n / 3)]. *)

From Stdlib Require Import String Ascii List ZArith Lia.
From S2P Require Import Prelude.

Import ListNotations.
Local Open Scope Z_scope.
Local Open Scope ws_scope.

Module Base64.

(** ** The alphabet *)

(** [base64::STANDARD]'s encode table. *)
Definition STANDARD : string :=
  "ABCDEFGHIJKLMNOPQRSTUVWXYZabcdefghijklmnopqrstuvwxyz0123456789+/".

Definition encode_sextet (i : Z) : ascii :=
  nth (Z.to_nat i) (list_ascii_of_string STANDARD) "A"%char.

Fixpoint index_of (c : ascii) (l : list ascii) (i : Z) : option Z :=
  match l with
  | [] => None
  | d :: l' => if Ascii.eqb c d then Some i else index_of c l' (i + 1)
  end.

Definition decode_sextet (c : ascii) : option Z :=
  index_of c (list_ascii_of_string STANDARD) 0.

(** ** Encoding *)

(** Three bytes as one 24-bit number, first byte most significant. *)
Definition group3 (b0 b1 b2 : byte) : Z :=
  byte_val b0 * 2 ^ 16 + byte_val b1 * 2 ^ 8 + byte_val b2.

(** The [k]-th 6-bit digit of a group, counted from the least
    significant one. *)
Definition sextet (n : Z) (k : Z) : ascii :=
  encode_sextet ((n / 2 ^ (6 * k)) mod 64).

Fixpoint encode_bytes (bs : list byte) : list ascii :=
  match bs with
  | b0 :: b1 :: b2 :: rest =>
      let n := group3 b0 b1 b2 in
      sextet n 3 :: sextet n 2 :: sextet n 1 :: sextet n 0 :: encode_bytes rest
  | [b0; b1] =>
      let n := group3 b0 b1 Byte.x00 in
      [sextet n 3; sextet n 2; sextet n 1; "="%char]
  | [b0] =>
      let n := group3 b0 Byte.x00 Byte.x00 in
      [sextet n 3; sextet n 2; "="%char; "="%char]
  | [] => []
  end.

(** [base64::encode]. *)
Definition encode (input : list byte) : string :=
  string_of_list_ascii (encode_bytes input).

(** ** Decoding *)

(** The three bytes of a 24-bit group. *)
Definition ungroup (n : Z) : list byte :=
  [byte_of_Z (n / 2 ^ 16); byte_of_Z (n / 2 ^ 8); byte_of_Z n].

Fixpoint decode_chars (cs : list ascii) : option (list byte) :=
  match cs with
  | [] => Some []
  | c0 :: c1 :: c2 :: c3 :: rest =>
      s0 <-o decode_sextet c0 ;;
      s1 <-o decode_sextet c1 ;;
      if Ascii.eqb c3 "="%char then
        match rest with
        | [] =>
            if Ascii.eqb c2 "="%char then
              if s1 mod 16 =? 0
              then Some (firstn 1 (ungroup (s0 * 2 ^ 18 + s1 * 2 ^ 12)))
              else None
            else
              s2 <-o decode_sextet c2 ;;
              if s2 mod 4 =? 0
              then Some (firstn 2 (ungroup (s0 * 2 ^ 18 + s1 * 2 ^ 12 + s2 * 2 ^ 6)))
              else None
        | _ => None
        end
      else
        s2 <-o decode_sextet c2 ;;
        s3 <-o decode_sextet c3 ;;
        tail <-o decode_chars rest ;;
        Some (ungroup (s0 * 2 ^ 18 + s1 * 2 ^ 12 + s2 * 2 ^ 6 + s3) ++ tail)
  | _ => None
  end.

Definition decode (s : string) : option (list byte) :=
  decode_chars (list_ascii_of_string s).

(** ** Lemmas *)

(** The decode table inverts the encode table on the 64 digits; no digit
    is the padding character. Both are checked by evaluation. *)
Lemma encode_sextet_nat (k : nat) :
  (k < 64)%nat ->
  decode_sextet (encode_sextet (Z.of_nat k)) = Some (Z.of_nat k)
  /\ Ascii.eqb (encode_sextet (Z.of_nat k)) "="%char = false.
Proof. intros Hk. do 64 (destruct k as [|k]; [split; reflexivity |]). lia. Qed.

Lemma encode_sextet_digit (i : Z) :
  0 <= i < 64 ->
  decode_sextet (encode_sextet i) = Some i /\ Ascii.eqb (encode_sextet i) "="%char = false.
Proof.
  intros Hi. rewrite <- (Z2Nat.id i) by lia. apply encode_sextet_nat. lia.
Qed.

Lemma decode_sextet_of (n k : Z) :
  decode_sextet (sextet n k) = Some ((n / 2 ^ (6 * k)) mod 64).
Proof. apply encode_sextet_digit, Z.mod_pos_bound. lia. Qed.

Lemma sextet_not_pad (n k : Z) : Ascii.eqb (sextet n k) "="%char = false.
Proof. apply encode_sextet_digit, Z.mod_pos_bound. lia. Qed.

#[export] Hint Rewrite decode_sextet_of sextet_not_pad : wsdb_rw.

Local Ltac pow_consts :=
  change (2 ^ (6 * 3)) with 262144 in *; change (2 ^ (6 * 2)) with 4096 in *;
  change (2 ^ (6 * 1)) with 64 in *; change (2 ^ (6 * 0)) with 1 in *;
  change (2 ^ 18) with 262144 in *; change (2 ^ 16) with 65536 in *;
  change (2 ^ 12) with 4096 in *; change (2 ^ 8) with 256 in *;
  change (2 ^ 6) with 64 in *.

(** Decoding the three bytes of a group gives them back. *)
Lemma ungroup_group3 (b0 b1 b2 : byte) : ungroup (group3 b0 b1 b2) = [b0; b1; b2].
Proof.
  unfold ungroup, group3. pow_consts.
  pose proof (byte_val_range b0). pose proof (byte_val_range b1).
  pose proof (byte_val_range b2).
  f_equal; [| f_equal; [| f_equal]]; apply byte_val_inj; rewrite byte_val_of_Z;
    Z.div_mod_to_equations; lia.
Qed.

(** The four digits of a group put back together give the group. *)
Lemma digits_group3 (b0 b1 b2 : byte) (n : Z) :
  n = group3 b0 b1 b2 ->
  (n / 2 ^ (6 * 3)) mod 64 * 2 ^ 18 + (n / 2 ^ (6 * 2)) mod 64 * 2 ^ 12
  + (n / 2 ^ (6 * 1)) mod 64 * 2 ^ 6 + (n / 2 ^ (6 * 0)) mod 64 = n.
Proof.
  intros ->. unfold group3. pow_consts.
  pose proof (byte_val_range b0). pose proof (byte_val_range b1).
  pose proof (byte_val_range b2).
  Z.div_mod_to_equations. lia.
Qed.

(** A final group of one byte: the second digit has four zero low bits,
    and the two digits give back the group. *)
Lemma digits_pad2 (b0 : byte) (n : Z) :
  n = group3 b0 Byte.x00 Byte.x00 ->
  ((n / 2 ^ (6 * 2)) mod 64) mod 16 = 0 /\
  (n / 2 ^ (6 * 3)) mod 64 * 2 ^ 18 + (n / 2 ^ (6 * 2)) mod 64 * 2 ^ 12 = n.
Proof.
  intros ->. unfold group3. change (byte_val Byte.x00) with 0. pow_consts.
  pose proof (byte_val_range b0). Z.div_mod_to_equations. lia.
Qed.

(** A final group of two bytes: the third digit has two zero low bits,
    and the three digits give back the group. *)
Lemma digits_pad1 (b0 b1 : byte) (n : Z) :
  n = group3 b0 b1 Byte.x00 ->
  ((n / 2 ^ (6 * 1)) mod 64) mod 4 = 0 /\
  (n / 2 ^ (6 * 3)) mod 64 * 2 ^ 18 + (n / 2 ^ (6 * 2)) mod 64 * 2 ^ 12
  + (n / 2 ^ (6 * 1)) mod 64 * 2 ^ 6 = n.
Proof.
  intros ->. unfold group3. change (byte_val Byte.x00) with 0. pow_consts.
  pose proof (byte_val_range b0). pose proof (byte_val_range b1).
  Z.div_mod_to_equations. lia.
Qed.

Lemma decode_chars_encode_bytes (bs : list byte) :
  decode_chars (encode_bytes bs) = Some bs.
Proof.
  revert bs. fix IH 1. intros [|b0 [|b1 [|b2 rest]]].
  - reflexivity.
  - cbn [encode_bytes decode_chars]. autorewrite with wsdb_rw. cbn [Ascii.eqb Bool.eqb andb].
    destruct (digits_pad2 b0 _ eq_refl) as [Hz ->]. rewrite Hz. cbn [Z.eqb].
    rewrite ungroup_group3. reflexivity.
  - cbn [encode_bytes decode_chars]. autorewrite with wsdb_rw. cbn [Ascii.eqb Bool.eqb andb].
    destruct (digits_pad1 b0 b1 _ eq_refl) as [Hz ->]. rewrite Hz. cbn [Z.eqb].
    rewrite ungroup_group3. reflexivity.
  - cbn [encode_bytes decode_chars]. autorewrite with wsdb_rw.
    rewrite IH, (digits_group3 b0 b1 b2 _ eq_refl), ungroup_group3. reflexivity.
Qed.

(** Round trip: decoding an encoding gives back the bytes. *)
Theorem decode_encode (bs : list byte) : decode (encode bs) = Some bs.
Proof.
  unfold decode, encode. rewrite list_ascii_of_string_of_list_ascii.
  apply decode_chars_encode_bytes.
Qed.

(** Every three input bytes, or fewer at the end, give four characters. *)
Lemma encode_bytes_length (bs : list byte) :
  length (encode_bytes bs) = (4 * ((length bs + 2) / 3))%nat.
Proof.
  revert bs. fix IH 1. intros [|b0 [|b1 [|b2 rest]]]; try reflexivity.
  cbn [encode_bytes length]. rewrite IH.
  replace (S (S (S (length rest))) + 2)%nat with ((length rest + 2) + 1 * 3)%nat by lia.
  rewrite Nat.div_add by lia. lia.
Qed.

(** Every group of three bytes, or the shorter last group, becomes
    four characters: the encoding of [n] bytes has [4 * ceil(n / 3)]. *)
Theorem encode_length (bs : list byte) :
  String.length (encode bs) = (4 * ((length bs + 2) / 3))%nat.
Proof.
  unfold encode. rewrite length_string_of_list_ascii. apply encode_bytes_length.
Qed.

Lemma encode_injective (a b : list byte) : encode a = encode b -> a = b.
Proof.
  intros H. apply (f_equal (fun s => decode_chars (list_ascii_of_string s))) in H.
  unfold encode in H. rewrite !list_ascii_of_string_of_list_ascii, !decode_chars_encode_bytes in H.
  injection H as H. exact H.
Qed.

End Base64.
