(* ===== verification/AcceptKey.v ===== *)
(** * The accept-key deriver ([convert_key], lib.rs 41-50)

    [convert_key] turns the client's [Sec-WebSocket-Key] into the server's
    [Sec-WebSocket-Accept]. It feeds the key and the RFC 6455 GUID to a
    fresh SHA-1 hasher and base64-encodes the 20-byte digest. The
    theorems show that the token is base64 of SHA-1 of the key followed
    by the GUID, and that it decodes back to that digest. The RFC 6455
    example is checked by evaluation. *)

From Stdlib Require Import String List ZArith Lia.
From S2P Require Import Prelude Word32 Sha1 Base64.

Import ListNotations.

Module AcceptKey.

(** [const WS_GUID: &[u8] = b"258EAFA5-E914-47DA-95CA-C5AB0DC85B11"]. *)
Definition WS_GUID : list byte := as_bytes "258EAFA5-E914-47DA-95CA-C5AB0DC85B11".

(** [fn convert_key(input: &[u8]) -> String]. *)
Definition convert_key (input : list byte) : string :=
  let sha1 := Sha1.default in
  let sha1 := Sha1.update sha1 input in
  let sha1 := Sha1.update sha1 WS_GUID in
  Base64.encode (Sha1.finalize sha1).

(** C2: The derived token is the RFC 6455 computation
    [base64(SHA-1(key ++ GUID))]: the two [update] calls on a fresh hasher
    hash the concatenation of the key and the GUID. *)
Theorem convert_key_spec (input : list byte) :
  convert_key input = Base64.encode (Sha1.sha1 (input ++ WS_GUID)).
Proof. unfold convert_key. rewrite Sha1.update2_finalize. reflexivity. Qed.

(** The test vector of RFC 6455, section 1.3, checked on the models of
    the two crates: the key [dGhlIHNhbXBsZSBub25jZQ==] yields the accept
    token [s3pPLMBiTxaQ9kYGzzhZRbK+xOo=]. *)
Example convert_key_rfc6455_example :
  convert_key (as_bytes "dGhlIHNhbXBsZSBub25jZQ==") = "s3pPLMBiTxaQ9kYGzzhZRbK+xOo="%string.
Proof. vm_compute. reflexivity. Qed.

(** C18: The accept token loses nothing: base64-decoding it gives back the
    SHA-1 digest of the key followed by the GUID. *)
Theorem convert_key_decodes (input : list byte) :
  Base64.decode (convert_key input) = Some (Sha1.sha1 (input ++ WS_GUID)).
Proof.
  unfold convert_key, Base64.decode, Base64.encode. rewrite Sha1.update2_finalize.
  rewrite list_ascii_of_string_of_list_ascii. apply Base64.decode_chars_encode_bytes.
Qed.

End AcceptKey.
