(* ===== verification/Headers.v ===== *)
(** * Rocket's header map ([rocket::http::HeaderMap])

    lib.rs reads request headers with [request.headers().get_one(..)] and
    sets response headers with [ResponseBuilder::header], which calls
    [HeaderMap::replace]. The host fills the request's map with
    [HeaderMap::add]. The map is Rocket's (not under src/): an [IndexMap]
    from case-insensitive names ([Uncased]) to the list of values in
    arrival order. It is modelled as an association list in insertion
    order. Names compare with ASCII case folding, as
    [str::eq_ignore_ascii_case] does.

    The well-formedness invariant [wf] says that no two entries have
    names equal up to case; [add] and [replace] preserve it. Lookups
    respect the case-insensitive equivalence of names (a [Proper]
    instance for setoid rewriting). [get_one] returns the first value, so
    a repeated header is read from its first occurrence. *)

From Stdlib Require Import String Ascii List Lia.
From Stdlib Require Import Setoid Morphisms RelationClasses.
From S2P Require Import Prelude.

Import ListNotations.


Module Headers.

(** ** Case-insensitive names *)

(** [u8::to_ascii_lowercase]. *)
Definition ascii_lower (c : ascii) : ascii :=
  let n := nat_of_ascii c in
  if andb (Nat.leb 65 n) (Nat.leb n 90) then ascii_of_nat (n + 32) else c.

Fixpoint lower (s : string) : string :=
  match s with
  | EmptyString => EmptyString
  | String c s' => String (ascii_lower c) (lower s')
  end.

(** [str::eq_ignore_ascii_case], the equality of [Uncased] names. *)
Definition uncased_eqb (a b : string) : bool := String.eqb (lower a) (lower b).

Definition uncased (a b : string) : Prop := lower a = lower b.

(** ** The map *)

(** [Header<'h> { name: Uncased<'h>, value: Cow<'h, str> }]. *)
Record Header := mkHeader { hname : string; hvalue : string }.

(** [Header::new]. *)
Definition Header_new (name value : string) : Header := mkHeader name value.

(** [HeaderMap { headers: IndexMap<Uncased, Vec<Cow<str>>> }]. *)
Definition HeaderMap := list (string * list string).

Definition HeaderMap_new : HeaderMap := [].

(** The values stored under a name ([IndexMap::get]). *)
Fixpoint lookup (name : string) (m : HeaderMap) : option (list string) :=
  match m with
  | [] => None
  | (k, vs) :: m' => if uncased_eqb k name then Some vs else lookup name m'
  end.

(** [HeaderMap::get_one]: the first value of the name, if any. *)
Definition get_one (name : string) (m : HeaderMap) : option string :=
  match lookup name m with
  | Some (v :: _) => Some v
  | _ => None
  end.

(** [HeaderMap::get]: every value of the name, in order. *)
Definition get (name : string) (m : HeaderMap) : list string :=
  match lookup name m with Some vs => vs | None => [] end.

(** [HeaderMap::add]: push the value after those already stored under
    the name ([entry(name).or_insert(vec![]).push(value)]). *)
Fixpoint add (h : Header) (m : HeaderMap) : HeaderMap :=
  match m with
  | [] => [(hname h, [hvalue h])]
  | (k, vs) :: m' =>
      if uncased_eqb k (hname h) then (k, vs ++ [hvalue h]) :: m'
      else (k, vs) :: add h m'
  end.

(** [HeaderMap::replace]: [insert(name, vec![value])]. An existing entry
    keeps its place and its original name; a new one goes last. *)
Fixpoint replace (h : Header) (m : HeaderMap) : HeaderMap :=
  match m with
  | [] => [(hname h, [hvalue h])]
  | (k, vs) :: m' =>
      if uncased_eqb k (hname h) then (k, [hvalue h]) :: m'
      else (k, vs) :: replace h m'
  end.

(** The map the host builds from the raw request headers, in order. *)
Definition of_list (hs : list Header) : HeaderMap :=
  fold_left (fun m h => add h m) hs HeaderMap_new.

(** No two entries have names equal up to case. *)
Definition wf (m : HeaderMap) : Prop := NoDup (map (fun e => lower (fst e)) m).

(** ** Case-insensitive equivalence *)

#[export] Instance uncased_Equivalence : Equivalence uncased.
Proof. unfold uncased. split; repeat intro; congruence. Qed.

Lemma uncased_eqb_spec (a b : string) : uncased_eqb a b = true <-> uncased a b.
Proof. unfold uncased_eqb, uncased. apply String.eqb_eq. Qed.

Lemma uncased_eqb_compat (k a b : string) :
  uncased a b -> uncased_eqb k a = uncased_eqb k b.
Proof. unfold uncased_eqb, uncased. intros ->. reflexivity. Qed.

#[export] Instance lookup_Proper : Proper (uncased ==> eq ==> eq) lookup.
Proof.
  intros a b Hab m ? <-. induction m as [|[k vs] m IH]; [reflexivity |].
  simpl. rewrite (uncased_eqb_compat k a b Hab), IH. reflexivity.
Qed.

#[export] Instance get_one_Proper : Proper (uncased ==> eq ==> eq) get_one.
Proof. intros a b Hab m ? <-. unfold get_one. rewrite Hab. reflexivity. Qed.

#[export] Instance get_Proper : Proper (uncased ==> eq ==> eq) get.
Proof. intros a b Hab m ? <-. unfold get. rewrite Hab. reflexivity. Qed.

Lemma uncased_eqb_trans (k a b : string) :
  uncased_eqb k a = true -> uncased_eqb k b = uncased_eqb a b.
Proof.
  unfold uncased_eqb. intros H. apply String.eqb_eq in H. rewrite H. reflexivity.
Qed.

(** ** Lookups after [add] and [replace] *)

Lemma lookup_add (h : Header) (n : string) (m : HeaderMap) :
  lookup n (add h m)
  = if uncased_eqb (hname h) n
    then Some (match lookup n m with Some vs => vs ++ [hvalue h] | None => [hvalue h] end)
    else lookup n m.
Proof.
  induction m as [|[k vs] m IH]; simpl.
  - destruct (uncased_eqb (hname h) n); reflexivity.
  - destruct (uncased_eqb k (hname h)) eqn:Ekh; simpl.
    + rewrite (uncased_eqb_trans k (hname h) n Ekh).
      destruct (uncased_eqb (hname h) n); reflexivity.
    + rewrite IH. destruct (uncased_eqb k n) eqn:Ekn; [| reflexivity].
      destruct (uncased_eqb (hname h) n) eqn:Ehn; [| reflexivity].
      apply uncased_eqb_spec in Ehn. rewrite <- (uncased_eqb_compat k _ _ Ehn) in Ekn.
      congruence.
Qed.

Lemma lookup_replace (h : Header) (n : string) (m : HeaderMap) :
  lookup n (replace h m)
  = if uncased_eqb (hname h) n then Some [hvalue h] else lookup n m.
Proof.
  induction m as [|[k vs] m IH]; simpl.
  - destruct (uncased_eqb (hname h) n); reflexivity.
  - destruct (uncased_eqb k (hname h)) eqn:Ekh; simpl.
    + rewrite (uncased_eqb_trans k (hname h) n Ekh).
      destruct (uncased_eqb (hname h) n); reflexivity.
    + rewrite IH. destruct (uncased_eqb k n) eqn:Ekn; [| reflexivity].
      destruct (uncased_eqb (hname h) n) eqn:Ehn; [| reflexivity].
      apply uncased_eqb_spec in Ehn. rewrite <- (uncased_eqb_compat k _ _ Ehn) in Ekn.
      congruence.
Qed.

(** [add] never changes the first value of a name that has one. *)
Lemma get_one_add (h : Header) (n : string) (m : HeaderMap) :
  get_one n (add h m)
  = match get_one n m with
    | Some v => Some v
    | None => if uncased_eqb (hname h) n then Some (hvalue h) else None
    end.
Proof.
  unfold get_one. rewrite lookup_add.
  destruct (uncased_eqb (hname h) n), (lookup n m) as [[|v vs]|]; reflexivity.
Qed.

Lemma get_replace (h : Header) (n : string) (m : HeaderMap) :
  get n (replace h m) = if uncased_eqb (hname h) n then [hvalue h] else get n m.
Proof. unfold get. rewrite lookup_replace. destruct (uncased_eqb (hname h) n); reflexivity. Qed.

Lemma get_one_replace (h : Header) (n : string) (m : HeaderMap) :
  get_one n (replace h m) = if uncased_eqb (hname h) n then Some (hvalue h) else get_one n m.
Proof. unfold get_one. rewrite lookup_replace. destruct (uncased_eqb (hname h) n); reflexivity. Qed.

(** ** The invariant *)

Lemma lookup_None_notin (n : string) (m : HeaderMap) :
  lookup n m = None -> ~ In (lower n) (map (fun e => lower (fst e)) m).
Proof.
  induction m as [|[k vs] m IH]; simpl; [tauto |].
  destruct (uncased_eqb k n) eqn:E; [discriminate |]. intros Hl [Heq | Hin].
  - unfold uncased_eqb in E. rewrite Heq, String.eqb_refl in E. discriminate.
  - exact (IH Hl Hin).
Qed.

(** [add] and [replace] keep the keys in place and append a new one only
    when the name is absent. *)
Lemma keys_add (h : Header) (m : HeaderMap) :
  map (fun e => lower (fst e)) (add h m)
  = map (fun e => lower (fst e)) m
    ++ match lookup (hname h) m with Some _ => [] | None => [lower (hname h)] end.
Proof.
  induction m as [|[k vs] m IH]; [reflexivity |]. simpl.
  destruct (uncased_eqb k (hname h)); simpl; [rewrite app_nil_r; reflexivity |].
  rewrite IH. reflexivity.
Qed.

Lemma keys_replace (h : Header) (m : HeaderMap) :
  map (fun e => lower (fst e)) (replace h m)
  = map (fun e => lower (fst e)) m
    ++ match lookup (hname h) m with Some _ => [] | None => [lower (hname h)] end.
Proof.
  induction m as [|[k vs] m IH]; [reflexivity |]. simpl.
  destruct (uncased_eqb k (hname h)); simpl; [rewrite app_nil_r; reflexivity |].
  rewrite IH. reflexivity.
Qed.

Lemma wf_append_key (h : Header) (m : HeaderMap) :
  wf m ->
  NoDup (map (fun e => lower (fst e)) m
         ++ match lookup (hname h) m with Some _ => [] | None => [lower (hname h)] end).
Proof.
  unfold wf. intros Hwf. destruct (lookup (hname h) m) eqn:E.
  - rewrite app_nil_r. exact Hwf.
  - apply NoDup_app; [exact Hwf | repeat constructor; simpl; tauto |].
    intros x Hx [<- | []]. exact (lookup_None_notin _ _ E Hx).
Qed.

Lemma wf_add (h : Header) (m : HeaderMap) : wf m -> wf (add h m).
Proof. intros Hwf. unfold wf. rewrite keys_add. apply wf_append_key, Hwf. Qed.

Lemma wf_replace (h : Header) (m : HeaderMap) : wf m -> wf (replace h m).
Proof. intros Hwf. unfold wf. rewrite keys_replace. apply wf_append_key, Hwf. Qed.

#[export] Hint Resolve wf_add wf_replace : wsdb.

(** ** Maps built from raw headers *)

(** The first raw header with the given name, up to case. *)
Definition first_value (n : string) (hs : list Header) : option string :=
  option_map hvalue (find (fun h => uncased_eqb (hname h) n) hs).

Lemma get_one_fold_add (n : string) (hs : list Header) (m : HeaderMap) :
  get_one n (fold_left (fun m h => add h m) hs m)
  = match get_one n m with Some v => Some v | None => first_value n hs end.
Proof.
  revert m. induction hs as [|h hs IH]; intros m; simpl.
  - destruct (get_one n m); reflexivity.
  - rewrite IH, get_one_add. unfold first_value. simpl.
    destruct (get_one n m); [reflexivity |].
    destruct (uncased_eqb (hname h) n); reflexivity.
Qed.

(** The host's request map answers [get_one] with the first raw
    header of that name, compared without regard to ASCII case. *)
Theorem get_one_of_list (n : string) (hs : list Header) :
  get_one n (of_list hs) = first_value n hs.
Proof. unfold of_list. rewrite get_one_fold_add. reflexivity. Qed.

(** Two lists of raw headers that differ only in the ASCII case of
    their names. *)
Definition same_up_to_case (hs hs' : list Header) : Prop :=
  Forall2 (fun h h' => uncased (hname h) (hname h') /\ hvalue h = hvalue h') hs hs'.

#[export] Instance first_value_Proper : Proper (uncased ==> same_up_to_case ==> eq) first_value.
Proof.
  intros n n' Hn hs hs' Hs. unfold first_value. induction Hs as [|h h' hs hs' [Hh Hv] _ IH];
    [reflexivity |].
  cbn [find]. unfold uncased_eqb at 1 3. rewrite Hh, Hn.
  destruct (String.eqb (lower (hname h')) (lower n')); [cbn; rewrite Hv; reflexivity | exact IH].
Qed.

Lemma get_one_of_list_same_case (n : string) (hs hs' : list Header) :
  same_up_to_case hs hs' -> get_one n (of_list hs) = get_one n (of_list hs').
Proof. intros Hs. rewrite !get_one_of_list, Hs. reflexivity. Qed.

(** A map built from raw headers is well formed: no two entries have
    names that are equal up to case. *)
Theorem wf_of_list (hs : list Header) : wf (of_list hs).
Proof.
  unfold of_list. assert (H0 : wf HeaderMap_new) by constructor.
  revert H0. generalize HeaderMap_new. induction hs as [|h hs IH]; intros m Hm; simpl;
    [exact Hm | apply IH, wf_add, Hm].
Qed.

End Headers.
