(* ===== verification/Oneshot.v ===== *)
(** * The hand-off channel ([tokio::sync::oneshot])

    [RocketWebsocket::new] creates a [oneshot::channel()]. The responder
    owns the [Sender]; the route's task awaits the [Receiver]. The
    channel is tokio's (not under src/). It is modelled after tokio's
    implementation:

    - the shared [Inner] holds the value slot and the state bits
      [VALUE_SENT] and [CLOSED];
    - [Sender::send(self, t)] stores [t] and calls [Inner::complete],
      which sets [VALUE_SENT] unless [CLOSED] is set. If [CLOSED] is set,
      it takes the value back and returns [Err(t)];
    - dropping a [Sender] that has not sent also calls [complete], so the
      receiver sees completion with an empty slot: [RecvError];
    - [Receiver::poll] returns the value when [VALUE_SENT] is set and
      clears its [inner]. With an empty slot, or when [CLOSED] is set, it
      returns [Err(RecvError)] and keeps [inner]; otherwise it is
      [Pending]. Polling after [Ok] panics ("called after complete");
    - dropping a [Receiver] that still has its [inner] sets [CLOSED].

    A [Sender] and a [Receiver] are moved when used, so each handle is a
    flag of the state. An operation on a moved handle has no step.

    The contract ([astate], [astep]) is the spec's hand-off channel
    (spec 3 and 4.4): a slot that is pending, fulfilled or done, a
    producer and a consumer. [step_refines] and [run_refines] show that
    every step and every run of the tokio model maps through [abs] to a
    step or a run of the contract. *)

From Stdlib Require Import List Lia.
From S2P Require Import Prelude.

Import ListNotations.

Module Oneshot.

Section WithT.
Context {T : Type}.

(** ** tokio's implementation *)

(** [oneshot::Inner<T>]: the value cell and the state bits. *)
Record Inner := mkInner {
  value : option T;
  value_sent : bool;
  closed : bool
}.

(** [RecvError]. *)
Inductive RecvError := RecvError_.

(** The receiver's handle: [inner] present, [inner] cleared after a value
    was received, or the receiver dropped. *)
Inductive RxState := RxActive | RxFinished | RxDropped.

(** The channel with its two handles. *)
Record Chan := mkChan {
  inner : Inner;
  tx_alive : bool;
  rx_state : RxState
}.

(** [oneshot::channel()]. *)
Definition channel : Chan := mkChan (mkInner None false false) true RxActive.

(** [Inner::complete]: set [VALUE_SENT] unless [CLOSED] is set, and tell
    whether it was set. *)
Definition complete (i : Inner) : Inner * bool :=
  if closed i then (i, false) else (mkInner (value i) true (closed i), true).

(** [Sender::send(self, t)]. *)
Definition send (c : Chan) (t : T) : Chan * result unit T :=
  let i := mkInner (Some t) (value_sent (inner c)) (closed (inner c)) in
  let '(i', ok) := complete i in
  if ok then (mkChan i' false (rx_state c), Ok tt)
  else (mkChan (mkInner None (value_sent i') (closed i')) false (rx_state c), Err t).

(** [impl Drop for Sender]. *)
Definition drop_tx (c : Chan) : Chan :=
  mkChan (fst (complete (inner c))) false (rx_state c).

(** [Receiver::poll] with the receiver's [inner] present:
    [Inner::poll_recv], then clearing [inner] on [Ok]. *)
Definition poll_recv (c : Chan) : Chan * option (result T RecvError) :=
  if value_sent (inner c) then
    match value (inner c) with
    | Some v => (mkChan (mkInner None true (closed (inner c))) (tx_alive c) RxFinished,
                 Some (Ok v))
    | None => (c, Some (Err RecvError_))
    end
  else if closed (inner c) then (c, Some (Err RecvError_))
  else (c, None).

(** [impl Drop for Receiver]: [Inner::close] when [inner] is present. *)
Definition drop_rx (c : Chan) : Chan :=
  match rx_state c with
  | RxActive => mkChan (mkInner (value (inner c)) (value_sent (inner c)) true)
                       (tx_alive c) RxDropped
  | _ => mkChan (inner c) (tx_alive c) RxDropped
  end.

(** The operations of the two handles, and what each returns. A poll
    outcome [None] is [Poll::Pending]. *)
Inductive op := OpSend (t : T) | OpDropTx | OpPoll | OpDropRx.

Inductive outcome :=
| OSent (r : result unit T)
| ODroppedTx
| OPolled (p : option (result T RecvError))
| OPanicked
| ODroppedRx.

(** One operation, when its handle has not been moved. *)
Definition step_fn (c : Chan) (o : op) : option (Chan * outcome) :=
  match o with
  | OpSend t => if tx_alive c then let '(c', r) := send c t in Some (c', OSent r) else None
  | OpDropTx => if tx_alive c then Some (drop_tx c, ODroppedTx) else None
  | OpPoll =>
      match rx_state c with
      | RxActive => let '(c', p) := poll_recv c in Some (c', OPolled p)
      | RxFinished => Some (c, OPanicked)
      | RxDropped => None
      end
  | OpDropRx =>
      match rx_state c with
      | RxDropped => None
      | _ => Some (drop_rx c, ODroppedRx)
      end
  end.

(** Runs of operations from a state: the state reached and the outcomes
    in order. *)
Inductive run : Chan -> list op -> Chan -> list outcome -> Prop :=
| run_nil c : run c [] c []
| run_cons c o c1 out os c2 outs :
    step_fn c o = Some (c1, out) -> run c1 os c2 outs -> run c (o :: os) c2 (out :: outs).

(** ** The invariant of reachable states *)

Definition inv (c : Chan) : Prop :=
  (tx_alive c = true ->
     value (inner c) = None /\ value_sent (inner c) = false /\ rx_state c <> RxFinished
     /\ (closed (inner c) = true <-> rx_state c = RxDropped)) /\
  (tx_alive c = false -> value_sent (inner c) = true \/ closed (inner c) = true) /\
  (rx_state c = RxFinished -> value (inner c) = None) /\
  (closed (inner c) = true -> rx_state c = RxDropped) /\
  (value (inner c) <> None -> value_sent (inner c) = true).

Lemma inv_channel : inv channel.
Proof. unfold inv; simpl; repeat split; intuition discriminate. Qed.

(** Every step keeps the invariant: a case analysis on the operation and
    on every flag of the state. *)
Lemma step_inv (c c' : Chan) (o : op) (out : outcome) :
  inv c -> step_fn c o = Some (c', out) -> inv c'.
Proof.
  intros I H. destruct c as [[[v|] [] []] [] []]; destruct o; simpl in H;
    try discriminate; injection H as <- <-; unfold inv in *; simpl in *;
    intuition congruence.
Qed.

Lemma run_inv (c : Chan) (os : list op) (c' : Chan) (outs : list outcome) :
  run c os c' outs -> inv c -> inv c'.
Proof. induction 1; eauto using step_inv. Qed.

Definition reachable (c : Chan) : Prop := exists os outs, run channel os c outs.

Lemma run_snoc (c : Chan) (os : list op) (c1 : Chan) (outs : list outcome)
    (o : op) (c2 : Chan) (out : outcome) :
  run c os c1 outs -> step_fn c1 o = Some (c2, out) -> run c (os ++ [o]) c2 (outs ++ [out]).
Proof.
  induction 1 as [c|c o' c0 out' os c3 outs H R IH]; intros Hs; simpl.
  - eapply run_cons; [exact Hs | constructor].
  - eapply run_cons; [exact H | exact (IH Hs)].
Qed.

Lemma reachable_step (c c' : Chan) (o : op) (out : outcome) :
  reachable c -> step_fn c o = Some (c', out) -> reachable c'.
Proof. intros (os & outs & R) Hs. exists (os ++ [o]), (outs ++ [out]). exact (run_snoc _ _ _ _ _ _ _ R Hs). Qed.

Lemma reachable_channel : reachable channel.
Proof. exists [], []. constructor. Qed.

Lemma reachable_inv (c : Chan) : reachable c -> inv c.
Proof. intros (os & outs & R). exact (run_inv _ _ _ _ R inv_channel). Qed.

(** ** Single steps *)

(** Case analysis of a step [H] on the operation and every flag. *)
Local Ltac step_brute c o H :=
  destruct c as [[[?x|] [] []] [] []]; destruct o; simpl in H;
  try discriminate; injection H as <- <-; simpl in *.

Definition is_delivery (out : outcome) : bool :=
  match out with OPolled (Some (Ok _)) => true | _ => false end.

(** Once the receiver is no longer active, it never becomes active again
    and never receives a value. *)
Lemma step_inactive (c c1 : Chan) (o : op) (out : outcome) :
  step_fn c o = Some (c1, out) -> rx_state c <> RxActive ->
  rx_state c1 <> RxActive /\ is_delivery out = false.
Proof. intros H. step_brute c o H; intuition congruence. Qed.

(** A delivery finishes the receiver. *)
Lemma step_delivery_finishes (c c1 : Chan) (o : op) (out : outcome) :
  step_fn c o = Some (c1, out) -> is_delivery out = true -> rx_state c1 = RxFinished.
Proof. intros H. step_brute c o H; congruence. Qed.

(** A delivered value was in the slot. *)
Lemma step_delivery_value (c c1 : Chan) (o : op) (v : T) :
  step_fn c o = Some (c1, OPolled (Some (Ok v))) -> value (inner c) = Some v.
Proof. intros H. step_brute c o H; congruence. Qed.

(** A value in the slot was there before, or was just sent. *)
Lemma step_value_origin (c c1 : Chan) (o : op) (out : outcome) (v : T) :
  step_fn c o = Some (c1, out) -> value (inner c1) = Some v ->
  value (inner c) = Some v \/ (o = OpSend v /\ out = OSent (Ok tt)).
Proof. intros H. step_brute c o H; intros E; try discriminate; injection E as ->; auto. Qed.

(** With the sender gone, an empty slot stays empty and the channel stays
    complete or closed. *)
Definition hung_up (c : Chan) : Prop :=
  tx_alive c = false /\ value (inner c) = None /\ rx_state c <> RxFinished
  /\ (value_sent (inner c) = true \/ closed (inner c) = true).

Lemma step_hung_up (c c1 : Chan) (o : op) (out : outcome) :
  step_fn c o = Some (c1, out) -> hung_up c -> hung_up c1.
Proof. unfold hung_up. intros H. step_brute c o H; intuition congruence. Qed.

(** Dropping the sender of a valid state hangs the channel up. *)
Lemma step_drop_tx_hung_up (c c1 : Chan) (out : outcome) :
  inv c -> step_fn c OpDropTx = Some (c1, out) -> hung_up c1.
Proof.
  unfold inv, hung_up. intros I H. destruct c as [[[?x|] [] []] [] []]; simpl in H;
    try discriminate; injection H as <- <-; simpl in *; intuition congruence.
Qed.

(** ** Runs *)

Lemma run_inactive (c : Chan) (os : list op) (c' : Chan) (outs : list outcome) :
  run c os c' outs -> rx_state c <> RxActive -> filter is_delivery outs = [].
Proof.
  induction 1 as [|c o c1 out os c2 outs H R IH]; intros Hc; [reflexivity |].
  destruct (step_inactive _ _ _ _ H Hc) as [Hc1 E]. cbn [filter]. rewrite E.
  exact (IH Hc1).
Qed.

Lemma run_deliveries (c : Chan) (os : list op) (c' : Chan) (outs : list outcome) :
  run c os c' outs -> length (filter is_delivery outs) <= 1.
Proof.
  induction 1 as [|c o c1 out os c2 outs H R IH]; cbn [filter length]; [lia |].
  destruct (is_delivery out) eqn:E; [| exact IH].
  rewrite (run_inactive _ _ _ _ R); [simpl; lia |].
  rewrite (step_delivery_finishes _ _ _ _ H E). discriminate.
Qed.

Lemma run_delivery_origin (c : Chan) (os : list op) (c' : Chan) (outs : list outcome) (v : T) :
  run c os c' outs -> In (OPolled (Some (Ok v))) outs ->
  value (inner c) = Some v \/ In (OpSend v, OSent (Ok tt)) (combine os outs).
Proof.
  induction 1 as [|c o c1 out os c2 outs H R IH]; simpl; [tauto |].
  intros [-> | Hin].
  - left. exact (step_delivery_value _ _ _ _ H).
  - destruct (IH Hin) as [Hv | Hs]; [| auto].
    destruct (step_value_origin _ _ _ _ _ H Hv) as [E | [-> ->]]; auto.
Qed.

Lemma run_hung_up (c : Chan) (os : list op) (c' : Chan) (outs : list outcome) :
  run c os c' outs -> hung_up c -> hung_up c'.
Proof. induction 1; eauto using step_hung_up. Qed.

Lemma run_drop_tx_hung_up (c : Chan) (os : list op) (c' : Chan) (outs : list outcome) :
  run c os c' outs -> inv c -> In OpDropTx os -> hung_up c'.
Proof.
  induction 1 as [|c o c1 out os c2 outs H R IH]; simpl; [tauto |].
  intros I [-> | Hin].
  - exact (run_hung_up _ _ _ _ R (step_drop_tx_hung_up _ _ _ I H)).
  - exact (IH (step_inv _ _ _ _ I H) Hin).
Qed.

(** ** The hand-off contract (spec 3 and 4.4) *)

(** The slot is empty and pending, fulfilled, or done: taken by the
    consumer, or never to be filled because the producer is gone. *)
Inductive slot := SEmpty | SFull (v : T) | SDone.

Inductive consumer := CWaiting | CReceived | CGone.

Record astate := mkA { a_slot : slot; a_producer : bool; a_consumer : consumer }.

Definition astart : astate := mkA SEmpty true CWaiting.

(** The contract's steps, with the outcomes the caller observes. *)
Inductive astep : astate -> op -> astate -> outcome -> Prop :=
| a_send_ok v cs :
    cs <> CGone -> astep (mkA SEmpty true cs) (OpSend v) (mkA (SFull v) false cs) (OSent (Ok tt))
| a_send_abandoned v :
    astep (mkA SEmpty true CGone) (OpSend v) (mkA SDone false CGone) (OSent (Err v))
| a_drop_producer cs :
    astep (mkA SEmpty true cs) OpDropTx (mkA SDone false cs) ODroppedTx
| a_recv_value v p :
    astep (mkA (SFull v) p CWaiting) OpPoll (mkA SDone p CReceived) (OPolled (Some (Ok v)))
| a_recv_hung_up p :
    astep (mkA SDone p CWaiting) OpPoll (mkA SDone p CWaiting) (OPolled (Some (Err RecvError_)))
| a_recv_pending :
    astep (mkA SEmpty true CWaiting) OpPoll (mkA SEmpty true CWaiting) (OPolled None)
| a_recv_again sl p :
    astep (mkA sl p CReceived) OpPoll (mkA sl p CReceived) OPanicked
| a_drop_consumer sl p cs :
    cs <> CGone -> astep (mkA sl p cs) OpDropRx (mkA sl p CGone) ODroppedRx.

Inductive arun : astate -> list op -> astate -> list outcome -> Prop :=
| arun_nil a : arun a [] a []
| arun_cons a o a1 out os a2 outs :
    astep a o a1 out -> arun a1 os a2 outs -> arun a (o :: os) a2 (out :: outs).

(** The abstraction of tokio's state. *)
Definition abs (c : Chan) : astate :=
  mkA (match value (inner c) with
       | Some v => SFull v
       | None => if tx_alive c then SEmpty else SDone
       end)
      (tx_alive c)
      (match rx_state c with
       | RxActive => CWaiting
       | RxFinished => CReceived
       | RxDropped => CGone
       end).

Lemma abs_channel : abs channel = astart.
Proof. reflexivity. Qed.

(** Every step of a valid tokio state is a step of the contract on its
    abstraction, with the same outcome. *)
Lemma step_refines (c c' : Chan) (o : op) (out : outcome) :
  inv c -> step_fn c o = Some (c', out) -> astep (abs c) o (abs c') out.
Proof.
  intros I H. unfold inv in I.
  step_brute c o H; unfold abs; simpl; intuition (try congruence);
    solve [constructor; discriminate | constructor].
Qed.

Lemma run_refines (c : Chan) (os : list op) (c' : Chan) (outs : list outcome) :
  run c os c' outs -> inv c -> arun (abs c) os (abs c') outs.
Proof.
  induction 1 as [|c o c1 out os c2 outs H R IH]; intros I.
  - apply arun_nil.
  - apply arun_cons with (abs c1).
    + exact (step_refines _ _ _ _ I H).
    + exact (IH (step_inv _ _ _ _ I H)).
Qed.

(** ** Properties of the channel *)

(** Exactly-once delivery: in any run of a fresh channel, at most one
    poll of the receiver yields a value. *)
Theorem oneshot_at_most_one_delivery (os : list op) (c : Chan) (outs : list outcome) :
  run channel os c outs -> length (filter is_delivery outs) <= 1.
Proof. intros R. exact (run_deliveries _ _ _ _ R). Qed.

(** The value the receiver gets is one the sender sent, by a send
    that returned [Ok(())]. *)
Theorem oneshot_delivers_sent_value (os : list op) (c : Chan) (outs : list outcome) (v : T) :
  run channel os c outs -> In (OPolled (Some (Ok v))) outs ->
  In (OpSend v, OSent (Ok tt)) (combine os outs).
Proof.
  intros R Hin. destruct (run_delivery_origin _ _ _ _ v R Hin) as [E | H]; [discriminate | exact H].
Qed.

(** [Sender::send] fails exactly when the receiver has been dropped,
    and then hands the value back: the failure tells the sender that the
    requester abandoned the upgrade. *)
Theorem oneshot_send_fails_iff_receiver_dropped (c c' : Chan) (t : T) (r : result unit T) :
  reachable c -> step_fn c (OpSend t) = Some (c', OSent r) ->
  (r = Err t <-> rx_state c = RxDropped) /\ (r = Ok tt \/ r = Err t).
Proof.
  intros Hr H. pose proof (reachable_inv c Hr) as I. unfold inv in I.
  destruct c as [[[?x|] [] []] [] []]; simpl in H; try discriminate;
    injection H as <- <-; simpl in *; intuition congruence.
Qed.

(** No silent hang: once the sender is gone, a poll of the active
    receiver is never [Pending]. *)
Theorem oneshot_no_silent_hang (c : Chan) :
  reachable c -> tx_alive c = false -> rx_state c = RxActive ->
  exists c' r, step_fn c OpPoll = Some (c', OPolled (Some r)).
Proof.
  intros Hr Htx Hrx. pose proof (reachable_inv c Hr) as I. unfold inv in I.
  destruct c as [[[?x|] [] []] [] []]; simpl in *; try discriminate;
    intuition (try congruence); eauto.
Qed.

(** A sender dropped without sending makes every later poll of the
    receiver resolve to [Err(RecvError)]. *)
Theorem oneshot_dropped_sender_hangs_up (os : list op) (c c' : Chan) (outs : list outcome)
    (out : outcome) :
  run channel os c outs -> In OpDropTx os -> step_fn c OpPoll = Some (c', out) ->
  out = OPolled (Some (Err RecvError_)).
Proof.
  intros R Hin H. pose proof (run_drop_tx_hung_up _ _ _ _ R inv_channel Hin) as Hh.
  unfold hung_up in Hh.
  destruct c as [[[?x|] [] []] [] []]; simpl in *; try discriminate;
    intuition (try congruence).
Qed.

(** tokio's oneshot channel implements the spec's hand-off contract:
    every run of a fresh channel is a run of the contract from its start,
    with the same outcomes. *)
Theorem tokio_oneshot_refines_contract (os : list op) (c : Chan) (outs : list outcome) :
  run channel os c outs -> arun astart os (abs c) outs.
Proof. intros R. rewrite <- abs_channel. exact (run_refines _ _ _ _ R inv_channel). Qed.

End WithT.

Arguments Chan T : clear implicits.
Arguments op T : clear implicits.
Arguments outcome T : clear implicits.

#[export] Hint Resolve step_inv inv_channel reachable_inv reachable_channel : wsdb.

(** ** Concrete runs *)

Local Ltac run_tac := repeat (eapply run_cons; [reflexivity |]); apply run_nil.

(** Send 7, receive it, poll again. *)
Definition os_deliver : list (op nat) := [OpSend 7; OpPoll; OpPoll].
Definition outs_deliver : list (outcome nat) :=
  [OSent (Ok tt); OPolled (Some (Ok 7)); OPanicked].
Definition c_deliver : Chan nat := mkChan (mkInner None true false) false RxFinished.

(** The receiver is dropped first. *)
Definition c_rx_gone : Chan nat := mkChan (mkInner None false true) true RxDropped.

(** The sender is dropped first. *)
Definition c_tx_gone : Chan nat := mkChan (mkInner None true false) false RxActive.

Lemma oneshot_at_most_one_delivery_witness :
  run channel os_deliver c_deliver outs_deliver
  /\ length (filter is_delivery outs_deliver) <= 1.
Proof.
  split; [run_tac | apply (oneshot_at_most_one_delivery os_deliver c_deliver); run_tac].
Defined.

Lemma oneshot_delivers_sent_value_witness :
  run channel os_deliver c_deliver outs_deliver /\ In (OPolled (Some (Ok 7))) outs_deliver
  /\ In (OpSend 7, OSent (Ok tt)) (combine os_deliver outs_deliver).
Proof.
  split; [run_tac | split; [simpl; tauto |]].
  apply (oneshot_delivers_sent_value os_deliver c_deliver outs_deliver 7); [run_tac | simpl; tauto].
Defined.

Lemma oneshot_send_fails_iff_receiver_dropped_witness :
  reachable c_rx_gone
  /\ step_fn c_rx_gone (OpSend 7) = Some (mkChan (mkInner None false true) false RxDropped,
                                         OSent (Err 7))
  /\ ((@Err unit nat 7 = Err 7 <-> rx_state c_rx_gone = RxDropped)
      /\ (@Err unit nat 7 = Ok tt \/ @Err unit nat 7 = Err 7)).
Proof.
  assert (Hr : reachable c_rx_gone) by (exists [OpDropRx], [ODroppedRx]; run_tac).
  split; [exact Hr | split; [reflexivity |]].
  exact (oneshot_send_fails_iff_receiver_dropped c_rx_gone _ 7 (Err 7) Hr eq_refl).
Defined.

Lemma oneshot_no_silent_hang_witness :
  reachable c_tx_gone /\ tx_alive c_tx_gone = false /\ rx_state c_tx_gone = RxActive
  /\ exists c' r, step_fn c_tx_gone OpPoll = Some (c', OPolled (Some r)).
Proof.
  assert (Hr : reachable c_tx_gone) by (exists [OpDropTx], [ODroppedTx]; run_tac).
  split; [exact Hr | split; [reflexivity | split; [reflexivity |]]].
  exact (oneshot_no_silent_hang c_tx_gone Hr eq_refl eq_refl).
Defined.

Lemma oneshot_dropped_sender_hangs_up_witness :
  run channel [OpDropTx] c_tx_gone [ODroppedTx] /\ In (@OpDropTx nat) [OpDropTx]
  /\ step_fn c_tx_gone OpPoll = Some (c_tx_gone, OPolled (Some (Err RecvError_)))
  /\ OPolled (Some (Err RecvError_)) = @OPolled nat (Some (Err RecvError_)).
Proof.
  split; [run_tac | split; [simpl; tauto | split; [reflexivity |]]].
  apply (oneshot_dropped_sender_hangs_up [OpDropTx] c_tx_gone c_tx_gone [ODroppedTx]);
    [run_tac | simpl; tauto | reflexivity].
Defined.

Lemma tokio_oneshot_refines_contract_witness :
  run channel os_deliver c_deliver outs_deliver
  /\ arun astart os_deliver (abs c_deliver) outs_deliver.
Proof.
  split; [run_tac | apply (tokio_oneshot_refines_contract os_deliver c_deliver); run_tac].
Defined.

End Oneshot.
