(* ===== verification/Responder.v ===== *)
(** * The WebSocket responder ([RocketWebsocket], lib.rs 13-79)

    [RocketWebsocket] owns the [Sender] of a oneshot channel and an
    optional [WebSocketConfig]. It implements two of Rocket's traits:

    - [Responder::respond_to] (lib.rs 20-37) validates the handshake
      headers and builds the [101 Switching Protocols] response. It boxes
      [self] as the response's upgrade handler. On a validation error it
      returns [Err(Status::BadRequest)]; [self] is then dropped, and with
      it the [Sender];
    - [UpgradeResponder::on_upgrade] (lib.rs 54-57) wraps the raw
      connection into a server-role [WebSocketStream] and sends it
      through the channel. A failed send becomes an [io::Error].

    [new] and [with_config] (lib.rs 65-79) create the channel and the
    responder.

    State: the channels live in a store [chans : gmap nat (Chan _)] of the
    world. A [Sender] and a [Receiver] are indices into it, so the two
    handles of one channel alias the same state, as the [Arc<Inner>]
    does in tokio. Every channel operation is a step of [Oneshot.step_fn].

    The traits are type classes. A [Box<dyn UpgradeResponder>] is the
    record [BoxedUpgrade] of its two vtable entries: [on_upgrade] and the
    drop glue.

    [spec_validate] is the validator of spec 4.2, written from the spec
    on the raw headers. [check_handshake_refines_spec] shows where the
    code agrees with it. *)

From stdpp Require Import base gmap strings fin_maps.
From Stdlib Require Import String List ZArith.
From S2P Require Import Prelude Headers AcceptKey Oneshot.

Import ListNotations.
Local Open Scope ws_scope.

Module Responder.

(** ** Types of the libraries lib.rs calls *)

(** [rocket::http::Status]. *)
Record Status := mkStatus { code : Z }.

Definition Status_Ok : Status := mkStatus 200.
Definition SwitchingProtocols : Status := mkStatus 101.
Definition BadRequest : Status := mkStatus 400.

(** [tungstenite::protocol::Role]. *)
Inductive Role := Server | Client.

(** [tungstenite::protocol::WebSocketConfig]. *)
Record WebSocketConfig := mkConfig {
  max_send_queue : option Z;
  max_message_size : option Z;
  max_frame_size : option Z;
  accept_unmasked_frames : bool
}.

(** [WebSocketConfig::default()]: 64 MiB messages, 16 MiB frames. *)
Definition WebSocketConfig_default : WebSocketConfig :=
  mkConfig None (Some (Z.shiftl 64 20)) (Some (Z.shiftl 16 20)) false.

(** [std::io::ErrorKind] (the constructor lib.rs uses) and
    [std::io::Error::new(kind, msg)]. *)
Inductive ErrorKind := Other.
Record io_Error := io_Error_new { err_kind : ErrorKind; err_msg : string }.

(** [hyper::header::CONNECTION.as_str()] and [UPGRADE.as_str()]. *)
Definition CONNECTION : string := "connection".
Definition UPGRADE : string := "upgrade".

(** Byte equality, for the comparison of header bytes. *)
#[global] Instance byte_EqDecision : EqDecision byte := Byte.byte_eq_dec.

(** [rocket::Request]: only its headers are read. *)
Record Request := mkRequest { req_headers : Headers.HeaderMap }.

Section WithConn.

(** [rocket::response::upgrade::Upgraded], the raw connection. *)
Context {Upgraded : Type}.

(** [tokio_tungstenite::WebSocketStream<Upgraded>]: the socket, the role
    and the configuration of the protocol context. *)
Record WebSocketStream := mkWs {
  ws_socket : Upgraded;
  ws_role : Role;
  ws_config : WebSocketConfig
}.

(** [WebSocketStream::from_raw_socket(stream, role, config)]: tungstenite
    uses [config.unwrap_or_else(WebSocketConfig::default)]. *)
Definition from_raw_socket (stream : Upgraded) (role : Role)
    (config : option WebSocketConfig) : WebSocketStream :=
  mkWs stream role (match config with Some c => c | None => WebSocketConfig_default end).

(** ** The world: the store of channels *)

Record World := mkWorld { chans : gmap nat (Oneshot.Chan WebSocketStream); next_id : nat }.

Definition World_empty : World := mkWorld ∅ 0.

Record Sender := mkSender { tx_id : nat }.
Record Receiver := mkReceiver { rx_id : nat }.

(** [oneshot::channel()]: a fresh channel in the store. *)
Definition oneshot_channel (w : World) : (Sender * Receiver) * World :=
  let i := next_id w in
  ((mkSender i, mkReceiver i), mkWorld (<[i := Oneshot.channel]> (chans w)) (S i)).

(** One operation on the channel [i] of the store. [None]: no such
    channel, or the handle has been moved. *)
Definition chan_op (i : nat) (o : Oneshot.op WebSocketStream) (w : World)
    : option (Oneshot.outcome WebSocketStream) * World :=
  match chans w !! i with
  | Some c =>
      match Oneshot.step_fn c o with
      | Some (c', out) => (Some out, mkWorld (<[i := c']> (chans w)) (next_id w))
      | None => (None, w)
      end
  | None => (None, w)
  end.

(** [Sender::send]. *)
Definition Sender_send (tx : Sender) (t : WebSocketStream) (w : World)
    : result unit WebSocketStream * World :=
  match chan_op (tx_id tx) (Oneshot.OpSend t) w with
  | (Some (Oneshot.OSent r), w') => (r, w')
  | (_, w') => (Err t, w')
  end.

(** [impl Drop for Sender]. *)
Definition Sender_drop (tx : Sender) (w : World) : World :=
  snd (chan_op (tx_id tx) Oneshot.OpDropTx w).

(** ** Rocket's response and the traits *)

(** [Box<dyn UpgradeResponder>]: its vtable. *)
Record BoxedUpgrade := mkBoxedUpgrade {
  bu_on_upgrade : Upgraded -> World -> result unit io_Error * World;
  bu_drop : World -> World
}.

(** [rocket::Response]: status, headers, sized body and upgrade handler. *)
Record Response := mkResponse {
  status : Status;
  headers : Headers.HeaderMap;
  body : option string;
  upgrade : option BoxedUpgrade
}.

(** [Response::build()] starts from [Response::new()]: [200 OK], no
    header, no body. The builder's methods below each set one part. *)
Definition Response_build : Response := mkResponse Status_Ok Headers.HeaderMap_new None None.

Definition with_status (s : Status) (r : Response) : Response :=
  mkResponse s (headers r) (body r) (upgrade r).

(** [ResponseBuilder::header]: [Response::set_header], a replace. *)
Definition with_header (h : Headers.Header) (r : Response) : Response :=
  mkResponse (status r) (Headers.replace h (headers r)) (body r) (upgrade r).

(** [ResponseBuilder::sized_body(None, Cursor::new(s))]. *)
Definition with_sized_body (s : string) (r : Response) : Response :=
  mkResponse (status r) (headers r) (Some s) (upgrade r).

(** [ResponseBuilder::upgrade(handler)]. *)
Definition with_upgrade (u : BoxedUpgrade) (r : Response) : Response :=
  mkResponse (status r) (headers r) (body r) (Some u).

(** The traits, as classes over the world they act on. *)
Class Drop (R : Type) := drop : R -> World -> World.

Class UpgradeResponder (R : Type) :=
  on_upgrade : R -> Upgraded -> World -> result unit io_Error * World.

Class Responder (R : Type) :=
  respond : R -> Request -> World -> result Response Status * World.

(** [Box::new(r) as Box<dyn UpgradeResponder>]. *)
Definition box_upgrade {R : Type} `{UpgradeResponder R} `{Drop R} (r : R) : BoxedUpgrade :=
  mkBoxedUpgrade (on_upgrade r) (drop r).

(** ** [RocketWebsocket] *)

(** [pub struct RocketWebsocket { inner: oneshot::Sender<..>,
    config: Option<WebSocketConfig> }]. *)
Record RocketWebsocket := mkRocketWebsocket {
  inner : Sender;
  config : option WebSocketConfig
}.

(** The drop glue: dropping the struct drops its [Sender]. *)
#[global] Instance Drop_RocketWebsocket : Drop RocketWebsocket :=
  fun self w => Sender_drop (inner self) w.

(** [RocketWebsocket::new()]. *)
Definition new (w : World) : (RocketWebsocket * Receiver) * World :=
  let '((tx, rx), w') := oneshot_channel w in
  ((mkRocketWebsocket tx None, rx), w').

(** [RocketWebsocket::with_config(config)]. *)
Definition with_config (cfg : WebSocketConfig) (w : World)
    : (RocketWebsocket * Receiver) * World :=
  let '((tx, rx), w') := oneshot_channel w in
  ((mkRocketWebsocket tx (Some cfg), rx), w').

(** [UpgradeResponder::on_upgrade]: [self.config.take()] moves the
    configuration into the stream; [self.inner.send(..)] consumes the
    sender, and a failed send is mapped to an [io::Error] of kind
    [Other]. *)
#[global] Instance UpgradeResponder_RocketWebsocket : UpgradeResponder RocketWebsocket :=
  fun self upgrade_obj w =>
    let stream := from_raw_socket upgrade_obj Server (config self) in
    let '(r, w') := Sender_send (inner self) stream w in
    (map_err (fun _ => io_Error_new Other "Upgrade reciever hung up") r, w').

(** The handshake check of [respond_to]: the key must be present, and
    [get_one("Sec-WebSocket-Version").map(|v| v.as_bytes())] must be
    [Some(b"13")]. *)
Definition check_handshake (hs : Headers.HeaderMap) : result string Status :=
  key <-? ok_or (Headers.get_one "Sec-WebSocket-Key" hs) BadRequest ;;
  if decide (option_map as_bytes (Headers.get_one "Sec-WebSocket-Version" hs)
             ≠ Some (as_bytes "13"))
  then Err BadRequest
  else Ok key.

(** The raw [Sec-WebSocket-Key] headers of a request. *)
Definition key_headers (hs : list Headers.Header) : list Headers.Header :=
  filter (fun h => Headers.uncased_eqb (Headers.hname h) "Sec-WebSocket-Key") hs.

(** The validator of spec 4.2, on the raw headers: the key exactly once,
    and the version, if present, equal to [13]. *)
Definition spec_validate (hs : list Headers.Header) : result string Status :=
  match key_headers hs with
  | [k] =>
      match Headers.first_value "Sec-WebSocket-Version" hs with
      | Some v => if String.eqb v "13" then Ok (Headers.hvalue k) else Err BadRequest
      | None => Ok (Headers.hvalue k)
      end
  | _ => Err BadRequest
  end.

(** The response built from the key, with [self] as upgrade handler. *)
Definition switching_response (key : string) (self : RocketWebsocket) : Response :=
  let response := Response_build in
  let response := with_status SwitchingProtocols response in
  let response := with_header (Headers.Header_new CONNECTION "upgrade") response in
  let response := with_header (Headers.Header_new UPGRADE "websocket") response in
  let response := with_header (Headers.Header_new "Sec-WebSocket-Accept"
                                 (AcceptKey.convert_key (as_bytes key))) response in
  let response := with_sized_body "Switching protocols to WebSocket" response in
  with_upgrade (box_upgrade self) response.

(** [Responder::respond_to]. On [Err], [self] was not moved into the
    response and is dropped when the function returns. *)
#[global] Instance Responder_RocketWebsocket : Responder RocketWebsocket :=
  fun self request w =>
    match check_handshake (req_headers request) with
    | Ok key => (Ok (switching_response key self), w)
    | Err s => (Err s, drop self w)
    end.

(** ** The handshake check *)

Lemma check_handshake_ok (hs : Headers.HeaderMap) (key : string) :
  check_handshake hs = Ok key <->
  Headers.get_one "Sec-WebSocket-Key" hs = Some key
  /\ option_map as_bytes (Headers.get_one "Sec-WebSocket-Version" hs) = Some (as_bytes "13").
Proof.
  unfold check_handshake, ok_or.
  destruct (Headers.get_one "Sec-WebSocket-Key" hs) as [k|]; [| split; [discriminate | intuition congruence]].
  case_decide as Hv; split; intros H; try discriminate; intuition congruence.
Qed.

Lemma check_handshake_err (hs : Headers.HeaderMap) (s : Status) :
  check_handshake hs = Err s -> s = BadRequest.
Proof. unfold check_handshake, ok_or. intros H. repeat case_match; congruence. Qed.

(** ** Channel operations in the store *)

Lemma chan_op_some (i : nat) (o : Oneshot.op WebSocketStream) (w w' : World)
    (out : Oneshot.outcome WebSocketStream) :
  chan_op i o w = (Some out, w') ->
  exists c c', chans w !! i = Some c /\ Oneshot.step_fn c o = Some (c', out)
               /\ w' = mkWorld (<[i := c']> (chans w)) (next_id w).
Proof.
  unfold chan_op. destruct (chans w !! i) as [c|]; [| congruence].
  destruct (Oneshot.step_fn c o) as [[c' out']|] eqn:E; [| congruence].
  intros H. injection H as <- <-. eauto.
Qed.

Lemma chan_op_step (i : nat) (o : Oneshot.op WebSocketStream) (w : World) (c c' : Oneshot.Chan WebSocketStream)
    (out : Oneshot.outcome WebSocketStream) :
  chans w !! i = Some c -> Oneshot.step_fn c o = Some (c', out) ->
  chan_op i o w = (Some out, mkWorld (<[i := c']> (chans w)) (next_id w)).
Proof. intros Hc Hs. unfold chan_op. rewrite Hc, Hs. reflexivity. Qed.

(** An operation on one channel leaves the others as they were. *)
Lemma chan_op_other (i j : nat) (o : Oneshot.op WebSocketStream) (w : World) :
  i <> j -> chans (snd (chan_op i o w)) !! j = chans w !! j.
Proof.
  intros Hij. unfold chan_op. destruct (chans w !! i) as [c|]; [| reflexivity].
  destruct (Oneshot.step_fn c o) as [[c' out]|]; [| reflexivity].
  simpl. apply lookup_insert_ne. exact Hij.
Qed.

(** ** The response *)

(** The three headers of the 101 response, in the order they were set. *)
Lemma switching_response_headers (key : string) (self : RocketWebsocket) :
  headers (switching_response key self)
  = [(CONNECTION, ["upgrade"]); (UPGRADE, ["websocket"]);
     ("Sec-WebSocket-Accept", [AcceptKey.convert_key (as_bytes key)])].
Proof. reflexivity. Qed.

Lemma respond_ok (self : RocketWebsocket) (req : Request) (w : World) (key : string) :
  check_handshake (req_headers req) = Ok key ->
  respond self req w = (Ok (switching_response key self), w).
Proof. intros H. unfold respond, Responder_RocketWebsocket. rewrite H. reflexivity. Qed.

Lemma respond_err (self : RocketWebsocket) (req : Request) (w : World) (s : Status) :
  check_handshake (req_headers req) = Err s ->
  respond self req w = (Err s, Sender_drop (inner self) w).
Proof. intros H. unfold respond, Responder_RocketWebsocket. rewrite H. reflexivity. Qed.

Lemma get_one_key_headers (hs : list Headers.Header) :
  Headers.get_one "Sec-WebSocket-Key" (Headers.of_list hs)
  = option_map Headers.hvalue (hd_error (key_headers hs)).
Proof. rewrite Headers.get_one_of_list. unfold Headers.first_value. rewrite find_hd_filter. reflexivity. Qed.

(** ** [on_upgrade] on a channel of the store *)

(** The stream [on_upgrade] builds from the raw connection. *)
Definition upgraded_stream (self : RocketWebsocket) (conn : Upgraded) : WebSocketStream :=
  from_raw_socket conn Server (config self).

(** The send of [on_upgrade] as a step of its channel. *)
Lemma on_upgrade_step (self : RocketWebsocket) (conn : Upgraded) (w : World)
    (c c' : Oneshot.Chan WebSocketStream) (r : result unit WebSocketStream) :
  chans w !! tx_id (inner self) = Some c ->
  Oneshot.step_fn c (Oneshot.OpSend (upgraded_stream self conn)) = Some (c', Oneshot.OSent r) ->
  on_upgrade self conn w
  = (map_err (fun _ => io_Error_new Other "Upgrade reciever hung up") r,
     mkWorld (<[tx_id (inner self) := c']> (chans w)) (next_id w)).
Proof.
  intros Hc Hs. unfold on_upgrade, UpgradeResponder_RocketWebsocket, Sender_send.
  fold (upgraded_stream self conn). rewrite (chan_op_step _ _ _ _ _ _ Hc Hs). reflexivity.
Qed.

(** ** Properties of the responder *)

(** C3: [respond_to] accepts a request exactly when it has a
    [Sec-WebSocket-Key] header and its first [Sec-WebSocket-Version]
    header is [13]; header names are matched without regard to case. *)
Theorem respond_to_accepts_iff (self : RocketWebsocket) (req : Request) (w : World) :
  is_ok (fst (respond self req w)) = true <->
  (exists key, Headers.get_one "Sec-WebSocket-Key" (req_headers req) = Some key)
  /\ option_map as_bytes (Headers.get_one "Sec-WebSocket-Version" (req_headers req))
     = Some (as_bytes "13").
Proof.
  unfold respond, Responder_RocketWebsocket, check_handshake, ok_or.
  destruct (Headers.get_one "Sec-WebSocket-Key" (req_headers req)) as [k|]; cbn.
  - case_decide as Hv; cbn.
    + split; [discriminate | intros [_ H]; contradiction].
    + split; [intros _; split; [eauto | exact Hv] | intros _; reflexivity].
  - split; [discriminate | intros [[key H] _]; discriminate].
Qed.

(** C4: On a valid handshake, [respond_to] leaves the store alone and
    returns a [101 Switching Protocols] response with [Connection:
    upgrade], [Upgrade: websocket] and [Sec-WebSocket-Accept] set to the
    key's accept token, the informational body, and the responder itself
    as upgrade handler. *)
Theorem respond_to_switching_response (self : RocketWebsocket) (req : Request) (w : World)
    (key : string) :
  Headers.get_one "Sec-WebSocket-Key" (req_headers req) = Some key ->
  Headers.get_one "Sec-WebSocket-Version" (req_headers req) = Some "13" ->
  exists r, respond self req w = (Ok r, w)
    /\ status r = SwitchingProtocols
    /\ Headers.get_one CONNECTION (headers r) = Some "upgrade"
    /\ Headers.get_one UPGRADE (headers r) = Some "websocket"
    /\ Headers.get_one "Sec-WebSocket-Accept" (headers r)
       = Some (AcceptKey.convert_key (as_bytes key))
    /\ body r = Some "Switching protocols to WebSocket"
    /\ upgrade r = Some (box_upgrade self).
Proof.
  intros Hk Hv. assert (E : check_handshake (req_headers req) = Ok key)
    by (apply check_handshake_ok; rewrite Hv; auto).
  exists (switching_response key self). rewrite (respond_ok _ _ _ _ E).
  repeat split; reflexivity.
Qed.

(** C10: A rejected handshake is a [400 Bad Request], and the responder,
    which owns the channel's sender, is dropped with it: the store is
    left as [Sender::drop] leaves it. *)
Theorem respond_to_error_drops_sender (self : RocketWebsocket) (req : Request) (w : World)
    (s : Status) :
  fst (respond self req w) = Err s ->
  s = BadRequest /\ snd (respond self req w) = Sender_drop (inner self) w.
Proof.
  destruct (check_handshake (req_headers req)) as [key | st] eqn:E.
  - rewrite (respond_ok _ _ _ _ E). discriminate.
  - rewrite (respond_err _ _ _ _ E). simpl. intros H. injection H as <-.
    split; [exact (check_handshake_err _ _ E) | reflexivity].
Qed.

(** C8: A request with a key but no [Sec-WebSocket-Version] header is
    rejected with [400 Bad Request]: [None != Some(b"13")] holds, so the
    code requires the header (the spec says its absence is tolerated). *)
Theorem respond_to_missing_version_rejected (self : RocketWebsocket) (req : Request)
    (w : World) (key : string) :
  Headers.get_one "Sec-WebSocket-Key" (req_headers req) = Some key ->
  Headers.get_one "Sec-WebSocket-Version" (req_headers req) = None ->
  respond self req w = (Err BadRequest, Sender_drop (inner self) w).
Proof.
  intros Hk Hv. apply respond_err. unfold check_handshake, ok_or.
  rewrite Hk, Hv. reflexivity.
Qed.

(** C25: The code's handshake check is the spec's validator on every
    request with at most one key header and a version header: the two
    differ only on a missing version and on a repeated key. *)
Theorem check_handshake_refines_spec (hs : list Headers.Header) :
  (length (key_headers hs) <= 1)%nat ->
  Headers.first_value "Sec-WebSocket-Version" hs <> None ->
  check_handshake (Headers.of_list hs) = spec_validate hs.
Proof.
  intros Hk Hv. unfold check_handshake, spec_validate, ok_or.
  rewrite get_one_key_headers, Headers.get_one_of_list.
  destruct (key_headers hs) as [|k [|k' ks]]; cbn in Hk |- *; [reflexivity | | lia].
  destruct (Headers.first_value "Sec-WebSocket-Version" hs) as [v|]; [cbn | contradiction].
  destruct (String.eqb_spec v "13") as [-> | Hne]; case_decide as D; try reflexivity.
  - exfalso. apply D. reflexivity.
  - exfalso. apply Hne, as_bytes_inj. injection D as D. exact D.
Qed.

(** C16: With several [Sec-WebSocket-Key] headers, the code does not
    reject the request: the accept token is derived from the first one
    in arrival order (the spec requires the key exactly once). *)
Theorem respond_to_uses_first_key (self : RocketWebsocket) (hs : list Headers.Header)
    (w w' : World) (r : Response) :
  respond self (mkRequest (Headers.of_list hs)) w = (Ok r, w') ->
  Headers.get_one "Sec-WebSocket-Accept" (headers r)
  = option_map (fun k => AcceptKey.convert_key (as_bytes k))
               (Headers.first_value "Sec-WebSocket-Key" hs).
Proof.
  destruct (check_handshake (Headers.of_list hs)) as [key | st] eqn:E.
  - rewrite (respond_ok _ (mkRequest _) _ _ E). intros H. injection H as <- <-.
    apply check_handshake_ok in E as [Hk _].
    unfold Headers.of_list in Hk. rewrite Headers.get_one_fold_add in Hk.
    unfold Headers.get_one at 1. rewrite switching_response_headers.
    simpl in Hk. rewrite Hk. reflexivity.
  - rewrite (respond_err _ (mkRequest _) _ _ E). discriminate.
Qed.

(** C12: When the receiver still waits, [on_upgrade] succeeds and puts
    in the channel a stream that wraps the very connection it was given,
    in the server role, with the responder's configuration or the
    default one. *)
Theorem on_upgrade_delivers (self : RocketWebsocket) (conn : Upgraded) (w : World)
    (c : Oneshot.Chan WebSocketStream) :
  chans w !! tx_id (inner self) = Some c -> Oneshot.reachable c ->
  Oneshot.tx_alive c = true -> Oneshot.rx_state c <> Oneshot.RxDropped ->
  exists c', on_upgrade self conn w
             = (Ok tt, mkWorld (<[tx_id (inner self) := c']> (chans w)) (next_id w))
    /\ Oneshot.value (Oneshot.inner c')
       = Some (mkWs conn Server (match config self with
                                 | Some cfg => cfg
                                 | None => WebSocketConfig_default end))
    /\ Oneshot.tx_alive c' = false /\ Oneshot.rx_state c' = Oneshot.rx_state c.
Proof.
  intros Hc Hr Htx Hrx. pose proof (Oneshot.reachable_inv c Hr) as I.
  destruct I as [I1 _]. destruct (I1 Htx) as (Hv & Hs & _ & Hcl).
  destruct c as [[v sent cl] tx rx]; simpl in *; subst.
  destruct cl; [tauto |].
  eexists. rewrite (on_upgrade_step self conn w _ _ (Ok tt) Hc eq_refl).
  repeat split; reflexivity.
Qed.

(** C13: When the receiver has been dropped, [on_upgrade] fails with the
    [io::Error] "Upgrade reciever hung up" of kind [Other], and the
    channel is left without a value and without a sender. *)
Theorem on_upgrade_receiver_gone (self : RocketWebsocket) (conn : Upgraded) (w : World)
    (c : Oneshot.Chan WebSocketStream) :
  chans w !! tx_id (inner self) = Some c -> Oneshot.reachable c ->
  Oneshot.tx_alive c = true -> Oneshot.rx_state c = Oneshot.RxDropped ->
  exists c', on_upgrade self conn w
             = (Err (io_Error_new Other "Upgrade reciever hung up"),
                mkWorld (<[tx_id (inner self) := c']> (chans w)) (next_id w))
    /\ Oneshot.value (Oneshot.inner c') = None /\ Oneshot.tx_alive c' = false.
Proof.
  intros Hc Hr Htx Hrx. pose proof (Oneshot.reachable_inv c Hr) as I.
  destruct I as [I1 _]. destruct (I1 Htx) as (Hv & Hs & _ & Hcl).
  destruct c as [[v sent cl] tx rx]; simpl in *; subst.
  destruct cl; [| destruct Hcl as [_ H]; specialize (H eq_refl); discriminate].
  eexists. rewrite (on_upgrade_step self conn w _ _ (Err (upgraded_stream self conn)) Hc eq_refl).
  repeat split; reflexivity.
Qed.

(** C17: [new] allocates a fresh channel: the responder's sender and the
    returned receiver name the same new channel, in its initial state,
    the responder has no configuration, and every other channel of the
    store is unchanged. *)
Theorem new_fresh_channel (w w' : World) (ws : RocketWebsocket) (rx : Receiver) :
  (forall i, next_id w <= i -> chans w !! i = None) ->
  new w = ((ws, rx), w') ->
  tx_id (inner ws) = rx_id rx /\ config ws = None
  /\ chans w !! rx_id rx = None /\ chans w' !! rx_id rx = Some Oneshot.channel
  /\ (forall j, j <> rx_id rx -> chans w' !! j = chans w !! j).
Proof.
  intros Hfresh H. unfold new, oneshot_channel in H. injection H as <- <- <-. simpl.
  split; [reflexivity | split; [reflexivity | split; [apply Hfresh; lia | split]]].
  - apply lookup_insert_eq.
  - intros j Hj. apply lookup_insert_ne. congruence.
Qed.

(** C14: The channel that [new] creates behaves as the spec's hand-off
    contract: any run of its handles is a run of the contract from the
    start, and delivers the value at most once. *)
Theorem new_channel_refines_contract (w w' : World) (ws : RocketWebsocket) (rx : Receiver)
    (c0 c : Oneshot.Chan WebSocketStream) (os : list (Oneshot.op WebSocketStream))
    (outs : list (Oneshot.outcome WebSocketStream)) :
  new w = ((ws, rx), w') -> chans w' !! tx_id (inner ws) = Some c0 ->
  Oneshot.run c0 os c outs ->
  Oneshot.arun Oneshot.astart os (Oneshot.abs c) outs
  /\ length (filter Oneshot.is_delivery outs) <= 1.
Proof.
  intros Hn Hc R. unfold new, oneshot_channel in Hn. injection Hn as <- <- <-.
  cbn in Hc. rewrite lookup_insert_eq in Hc. injection Hc as <-.
  split; [rewrite <- Oneshot.abs_channel; exact (Oneshot.run_refines _ _ _ _ R Oneshot.inv_channel)
         | exact (Oneshot.run_deliveries _ _ _ _ R)].
Qed.

(** C15: The configuration given to [with_config] reaches the stream:
    upgrading a connection with the fresh responder puts in the channel
    the server-role stream on that connection with exactly that
    configuration. *)
Theorem with_config_reaches_stream (cfg : WebSocketConfig) (w w' : World)
    (ws : RocketWebsocket) (rx : Receiver) (conn : Upgraded) :
  with_config cfg w = ((ws, rx), w') ->
  exists c', on_upgrade ws conn w' = (Ok tt, mkWorld (<[rx_id rx := c']> (chans w')) (next_id w'))
    /\ Oneshot.value (Oneshot.inner c') = Some (mkWs conn Server cfg).
Proof.
  intros Hn. unfold with_config, oneshot_channel in Hn. injection Hn as <- <- <-.
  exists (Oneshot.mkChan (Oneshot.mkInner (Some (mkWs conn Server cfg)) true false) false
            Oneshot.RxActive).
  split; [| reflexivity].
  rewrite (on_upgrade_step (mkRocketWebsocket (mkSender (next_id w)) (Some cfg)) conn _
             Oneshot.channel
             (Oneshot.mkChan (Oneshot.mkInner (Some (mkWs conn Server cfg)) true false) false
                Oneshot.RxActive) (Ok tt)); [reflexivity | apply lookup_insert_eq | reflexivity].
Qed.

End WithConn.

Arguments WebSocketStream : clear implicits.
Arguments World : clear implicits.
Arguments BoxedUpgrade : clear implicits.
Arguments Response : clear implicits.

(** ** Concrete requests and stores *)

Definition rfc_key : string := "dGhlIHNhbXBsZSBub25jZQ==".

(** A valid upgrade request; the key header's name is in lower case. *)
Definition req_valid : Request :=
  mkRequest (Headers.of_list [Headers.Header_new "Host" "example.com";
                              Headers.Header_new "sec-websocket-key" rfc_key;
                              Headers.Header_new "Sec-WebSocket-Version" "13"]).

(** A request without a version header. *)
Definition req_no_version : Request :=
  mkRequest (Headers.of_list [Headers.Header_new "Sec-WebSocket-Key" rfc_key]).

(** A request with a version other than 13. *)
Definition req_bad_version : Request :=
  mkRequest (Headers.of_list [Headers.Header_new "Sec-WebSocket-Key" rfc_key;
                              Headers.Header_new "Sec-WebSocket-Version" "12"]).

(** A request with two keys. *)
Definition hs_two_keys : list Headers.Header :=
  [Headers.Header_new "Sec-WebSocket-Key" rfc_key;
   Headers.Header_new "Sec-WebSocket-Key" "AAAAAAAAAAAAAAAAAAAAAA==";
   Headers.Header_new "Sec-WebSocket-Version" "13"].

(** The headers of [req_valid]. *)
Definition hs_valid : list Headers.Header :=
  [Headers.Header_new "Host" "example.com";
   Headers.Header_new "sec-websocket-key" rfc_key;
   Headers.Header_new "Sec-WebSocket-Version" "13"].
Definition w_empty : World nat := World_empty.
Definition ws_0 : RocketWebsocket := mkRocketWebsocket (mkSender 0) None.
Definition w_1 : World nat := snd (new w_empty).
Definition w_rx_gone : World nat := snd (chan_op 0 Oneshot.OpDropRx w_1).

Lemma respond_to_switching_response_witness :
  Headers.get_one "Sec-WebSocket-Key" (req_headers req_valid) = Some rfc_key
  /\ Headers.get_one "Sec-WebSocket-Version" (req_headers req_valid) = Some "13"
  /\ exists r, respond ws_0 req_valid w_1 = (Ok r, w_1)
    /\ status r = SwitchingProtocols
    /\ Headers.get_one CONNECTION (headers r) = Some "upgrade"
    /\ Headers.get_one UPGRADE (headers r) = Some "websocket"
    /\ Headers.get_one "Sec-WebSocket-Accept" (headers r)
       = Some (AcceptKey.convert_key (as_bytes rfc_key))
    /\ body r = Some "Switching protocols to WebSocket"
    /\ upgrade r = Some (box_upgrade ws_0).
Proof.
  split; [reflexivity | split; [reflexivity |]].
  apply (respond_to_switching_response ws_0 req_valid w_1 rfc_key); reflexivity.
Defined.

Lemma respond_to_error_drops_sender_witness :
  fst (respond ws_0 req_no_version w_1) = Err BadRequest
  /\ BadRequest = BadRequest /\ snd (respond ws_0 req_no_version w_1) = Sender_drop (inner ws_0) w_1.
Proof.
  split; [reflexivity |].
  apply (respond_to_error_drops_sender ws_0 req_no_version w_1 BadRequest). reflexivity.
Defined.

Lemma respond_to_missing_version_rejected_witness :
  Headers.get_one "Sec-WebSocket-Key" (req_headers req_no_version) = Some rfc_key
  /\ Headers.get_one "Sec-WebSocket-Version" (req_headers req_no_version) = None
  /\ respond ws_0 req_no_version w_1 = (Err BadRequest, Sender_drop (inner ws_0) w_1).
Proof.
  split; [reflexivity | split; [reflexivity |]].
  apply (respond_to_missing_version_rejected ws_0 req_no_version w_1 rfc_key); reflexivity.
Defined.

Lemma respond_to_uses_first_key_witness :
  respond ws_0 (mkRequest (Headers.of_list hs_two_keys)) w_1
  = (Ok (switching_response rfc_key ws_0), w_1)
  /\ Headers.get_one "Sec-WebSocket-Accept" (headers (@switching_response nat rfc_key ws_0))
     = option_map (fun k => AcceptKey.convert_key (as_bytes k))
                  (Headers.first_value "Sec-WebSocket-Key" hs_two_keys).
Proof.
  split; [reflexivity |].
  apply (respond_to_uses_first_key ws_0 hs_two_keys w_1 w_1). reflexivity.
Defined.

Lemma on_upgrade_delivers_witness :
  chans w_1 !! tx_id (inner ws_0) = Some Oneshot.channel
  /\ Oneshot.reachable (@Oneshot.channel (WebSocketStream nat))
  /\ Oneshot.tx_alive (@Oneshot.channel (WebSocketStream nat)) = true
  /\ Oneshot.rx_state (@Oneshot.channel (WebSocketStream nat)) <> Oneshot.RxDropped
  /\ exists c', on_upgrade ws_0 7 w_1
               = (Ok tt, mkWorld (<[tx_id (inner ws_0) := c']> (chans w_1)) (next_id w_1))
    /\ Oneshot.value (Oneshot.inner c')
       = Some (mkWs 7 Server (match config ws_0 with
                              | Some cfg => cfg
                              | None => WebSocketConfig_default end))
    /\ Oneshot.tx_alive c' = false
    /\ Oneshot.rx_state c' = Oneshot.rx_state (@Oneshot.channel (WebSocketStream nat)).
Proof.
  assert (Hr : Oneshot.reachable (@Oneshot.channel (WebSocketStream nat)))
    by (exists [], []; constructor).
  split; [reflexivity | split; [exact Hr | split; [reflexivity | split; [discriminate |]]]].
  apply (on_upgrade_delivers ws_0 7 w_1 Oneshot.channel); [reflexivity | exact Hr | reflexivity | discriminate].
Defined.

Definition c_rx_gone : Oneshot.Chan (WebSocketStream nat) :=
  Oneshot.mkChan (Oneshot.mkInner None false true) true Oneshot.RxDropped.

Lemma on_upgrade_receiver_gone_witness :
  chans w_rx_gone !! tx_id (inner ws_0) = Some c_rx_gone /\ Oneshot.reachable c_rx_gone
  /\ Oneshot.tx_alive c_rx_gone = true /\ Oneshot.rx_state c_rx_gone = Oneshot.RxDropped
  /\ exists c', on_upgrade ws_0 7 w_rx_gone
               = (Err (io_Error_new Other "Upgrade reciever hung up"),
                  mkWorld (<[tx_id (inner ws_0) := c']> (chans w_rx_gone)) (next_id w_rx_gone))
    /\ Oneshot.value (Oneshot.inner c') = None /\ Oneshot.tx_alive c' = false.
Proof.
  assert (Hr : Oneshot.reachable c_rx_gone).
  { exists [Oneshot.OpDropRx], [Oneshot.ODroppedRx].
    eapply Oneshot.run_cons; [reflexivity | constructor]. }
  split; [reflexivity | split; [exact Hr | split; [reflexivity | split; [reflexivity |]]]].
  apply (on_upgrade_receiver_gone ws_0 7 w_rx_gone c_rx_gone); [reflexivity | exact Hr | reflexivity | reflexivity].
Defined.

Lemma new_fresh_channel_witness :
  (forall i, next_id w_empty <= i -> chans w_empty !! i = None)
  /\ new w_empty = ((ws_0, mkReceiver 0), w_1)
  /\ (tx_id (inner ws_0) = rx_id (mkReceiver 0) /\ config ws_0 = None
      /\ chans w_empty !! rx_id (mkReceiver 0) = None
      /\ chans w_1 !! rx_id (mkReceiver 0) = Some Oneshot.channel
      /\ (forall j, j <> rx_id (mkReceiver 0) -> chans w_1 !! j = chans w_empty !! j)).
Proof.
  assert (Hf : forall i, next_id w_empty <= i -> chans w_empty !! i = None)
    by (intros i _; apply lookup_empty).
  split; [exact Hf | split; [reflexivity |]].
  apply (new_fresh_channel w_empty w_1 ws_0 (mkReceiver 0) Hf). reflexivity.
Defined.

Definition cfg_small : WebSocketConfig := mkConfig (Some 4%Z) (Some 1024%Z) (Some 512%Z) false.

Lemma new_channel_refines_contract_witness :
  new w_empty = ((ws_0, mkReceiver 0), w_1)
  /\ chans w_1 !! tx_id (inner ws_0) = Some Oneshot.channel
  /\ Oneshot.run Oneshot.channel [Oneshot.OpSend (mkWs 7 Server WebSocketConfig_default); Oneshot.OpPoll]
       (Oneshot.mkChan (Oneshot.mkInner None true false) false Oneshot.RxFinished)
       [Oneshot.OSent (Ok tt); Oneshot.OPolled (Some (Ok (mkWs 7 Server WebSocketConfig_default)))]
  /\ (Oneshot.arun Oneshot.astart
        [Oneshot.OpSend (mkWs 7 Server WebSocketConfig_default); Oneshot.OpPoll]
        (Oneshot.abs (Oneshot.mkChan (Oneshot.mkInner None true false) false Oneshot.RxFinished))
        [Oneshot.OSent (Ok tt); Oneshot.OPolled (Some (Ok (mkWs 7 Server WebSocketConfig_default)))]
      /\ length (filter Oneshot.is_delivery
           [Oneshot.OSent (Ok tt); Oneshot.OPolled (Some (Ok (mkWs 7 Server WebSocketConfig_default)))]) <= 1).
Proof.
  assert (R : Oneshot.run Oneshot.channel [Oneshot.OpSend (mkWs 7 Server WebSocketConfig_default); Oneshot.OpPoll]
       (Oneshot.mkChan (Oneshot.mkInner None true false) false Oneshot.RxFinished)
       [Oneshot.OSent (Ok tt); Oneshot.OPolled (Some (Ok (mkWs 7 Server WebSocketConfig_default)))]).
  { eapply Oneshot.run_cons; [reflexivity |]. eapply Oneshot.run_cons; [reflexivity | constructor]. }
  split; [reflexivity | split; [reflexivity | split; [exact R |]]].
  exact (new_channel_refines_contract w_empty w_1 ws_0 (mkReceiver 0) _ _ _ _ eq_refl eq_refl R).
Defined.

Lemma with_config_reaches_stream_witness :
  with_config cfg_small w_empty
  = ((mkRocketWebsocket (mkSender 0) (Some cfg_small), mkReceiver 0), w_1)
  /\ exists c', on_upgrade (mkRocketWebsocket (mkSender 0) (Some cfg_small)) 7 w_1
               = (Ok tt, mkWorld (<[rx_id (mkReceiver 0) := c']> (chans w_1)) (next_id w_1))
    /\ Oneshot.value (Oneshot.inner c') = Some (mkWs 7 Server cfg_small).
Proof.
  split; [reflexivity |].
  exact (with_config_reaches_stream cfg_small w_empty w_1 _ (mkReceiver 0) 7 eq_refl).
Defined.

Lemma check_handshake_refines_spec_witness :
  (length (key_headers hs_valid) <= 1)%nat
  /\ Headers.first_value "Sec-WebSocket-Version" hs_valid <> None
  /\ check_handshake (Headers.of_list hs_valid) = spec_validate hs_valid.
Proof.
  assert (Hk : (length (key_headers hs_valid) <= 1)%nat) by (vm_compute; lia).
  assert (Hv : Headers.first_value "Sec-WebSocket-Version" hs_valid <> None) by discriminate.
  split; [exact Hk | split; [exact Hv | exact (check_handshake_refines_spec hs_valid Hk Hv)]].
Defined.

End Responder.
