(* ===== verification/Lifecycle.v ===== *)
(** * One upgrade, end to end: host server, responder and consumer task

    This file composes the responder with the two parties that drive it.

    - The host server (Rocket; not under src/, modelled from the
      host-server contract of spec 6). It calls [respond_to] on the
      responder that the route returned. It writes the error response,
      or writes the 101 response and then either calls the boxed handler's
      [on_upgrade] once with the raw connection, or drops the handler
      (client gone, write failure).
    - The consumer task of echo.rs (lines 14-24). The route creates
      [(ret, rx) = RocketWebsocket::new()] and spawns a task that awaits
      [rx]. [rx.await] consumes the receiver, which is dropped when the
      await resolves.

    The two run concurrently: [step] interleaves their actions in any
    order, over the shared store of channels. [cancel] is the runtime
    dropping the waiting task (for instance at shutdown), which drops
    [rx]. echo.rs never does this itself, so it is kept out of [step];
    [reachable] allows both. The log records what the peer observes:
    response status lines, the upgrade, and the delivery of the stream
    to the task.

    The invariant [sys_inv] ties the phases to the state of the one
    channel that [new] allocated. It covers who owns the sender, where a
    value in the slot came from, and what the task holds. The theorems
    are: the end-to-end run; delivery only after the 101 response, and
    only of the server-role stream on the host's connection; the
    hang-up path, where the dropped sender resolves [rx.await] to an
    error; and an [io::Error] when the consumer is gone. [rank] counts
    the steps each party has left, so [step] is well founded. [progress]
    shows that a reachable state that is not [final] can make a [step]:
    this needs the stream in the slot after an upgrade, and the sender
    dropped after a rejection or a close. So [runs_end_final]: every run
    of the two parties reaches a final state, and none gets stuck
    before one. *)

From stdpp Require Import base gmap strings fin_maps.
From Stdlib Require Import String List.
From S2P Require Import Prelude Headers AcceptKey Oneshot Responder.

Import ListNotations.
Import Responder.

Module Lifecycle.

Section WithConn.
Context {Conn : Type}.

Inductive HostPhase :=
| HRoute (req : Request) (ret : RocketWebsocket)
| HResponded (resp : Response Conn)
| HWritten (u : BoxedUpgrade Conn)
| HUpgraded (conn : Conn) (r : result unit io_Error)
| HRejected (s : Status)
| HClosed.

Inductive TaskPhase :=
| TAwait (rx : Receiver)
| TGot (ws : WebSocketStream Conn)
| TDone.

(** What the peer and the application observe. *)
Inductive Event :=
| EvResponse (s : Status)
| EvUpgrade
| EvDelivered.

Record Sys := mkSys {
  world : World Conn;
  host : HostPhase;
  task : TaskPhase;
  log : list Event
}.

(** The echo route: [let (ret, rx) = RocketWebsocket::new();
    tokio::spawn(async move { if let Ok(ws_stream) = rx.await { .. } });
    ret]. *)
Definition init (w : World Conn) (req : Request) : Sys :=
  let '((ret, rx), w') := new w in
  mkSys w' (HRoute req ret) (TAwait rx) [].

(** The receiver's [poll] through the store, then its drop. *)
Definition recv_and_drop (rx : Receiver) (w : World Conn)
    : option (Oneshot.outcome (WebSocketStream Conn)) * World Conn :=
  let '(out, w1) := chan_op (rx_id rx) Oneshot.OpPoll w in
  (out, snd (chan_op (rx_id rx) Oneshot.OpDropRx w1)).

Inductive step : Sys -> Sys -> Prop :=
(** The host calls [respond_to] on the route's responder. *)
| st_respond w req ret t l resp w' :
    respond ret req w = (Ok resp, w') ->
    step (mkSys w (HRoute req ret) t l) (mkSys w' (HResponded resp) t l)
| st_reject w req ret t l s w' :
    respond ret req w = (Err s, w') ->
    step (mkSys w (HRoute req ret) t l) (mkSys w' (HRejected s) t (l ++ [EvResponse s]))
(** The host writes the response; its upgrade handler waits. *)
| st_write w resp u t l :
    upgrade resp = Some u ->
    step (mkSys w (HResponded resp) t l) (mkSys w (HWritten u) t (l ++ [EvResponse (status resp)]))
(** Writing fails: the response and its handler are dropped. *)
| st_write_fail w resp u t l :
    upgrade resp = Some u ->
    step (mkSys w (HResponded resp) t l) (mkSys (bu_drop u w) HClosed t l)
(** After the response, the host hands the raw connection over. *)
| st_upgrade w u conn t l r w' :
    bu_on_upgrade u conn w = (r, w') ->
    step (mkSys w (HWritten u) t l) (mkSys w' (HUpgraded conn r) t (l ++ [EvUpgrade]))
(** Or the connection closes first, and the handler is dropped. *)
| st_close w u t l :
    step (mkSys w (HWritten u) t l) (mkSys (bu_drop u w) HClosed t l)
(** [rx.await] resolves to [Ok(ws_stream)]. *)
| st_recv_ok w h rx l ws w' :
    recv_and_drop rx w = (Some (Oneshot.OPolled (Some (Ok ws))), w') ->
    step (mkSys w h (TAwait rx) l) (mkSys w' h (TGot ws) (l ++ [EvDelivered]))
(** [rx.await] resolves to [Err(RecvError)]: the task returns. *)
| st_recv_err w h rx l e w' :
    recv_and_drop rx w = (Some (Oneshot.OPolled (Some (Err e))), w') ->
    step (mkSys w h (TAwait rx) l) (mkSys w' h TDone l).

(** The runtime drops the task while it waits (for instance when it
    shuts down), which drops [rx]. echo.rs never aborts the task itself,
    so this is an action of the environment, kept apart from [step]. *)
Inductive cancel : Sys -> Sys -> Prop :=
| st_cancel w h rx l :
    cancel (mkSys w h (TAwait rx) l)
           (mkSys (snd (chan_op (rx_id rx) Oneshot.OpDropRx w)) h TDone l).

Definition sys_step (s s' : Sys) : Prop := step s s' \/ cancel s s'.

(** The states of the route's request, under any interleaving of the two
    parties' steps and of cancellation. *)
Definition reachable (w : World Conn) (req : Request) (s : Sys) : Prop :=
  star sys_step (init w req) s.

(** No channel at or above the next identifier. *)
Definition fresh_ids (w : World Conn) : Prop :=
  forall i, next_id w <= i -> chans w !! i = None.

(** A run ends when the host has upgraded, rejected or closed, and the
    task holds the stream or has returned. *)
Definition host_final (h : HostPhase) : bool :=
  match h with HUpgraded _ _ | HRejected _ | HClosed => true | _ => false end.
Definition task_final (t : TaskPhase) : bool :=
  match t with TAwait _ => false | _ => true end.
Definition final (s : Sys) : bool := host_final (host s) && task_final (task s).

(** The steps each party has left at most. *)
Definition host_rank (h : HostPhase) : nat :=
  match h with HRoute _ _ => 3 | HResponded _ => 2 | HWritten _ => 1 | _ => 0 end.
Definition task_rank (t : TaskPhase) : nat :=
  match t with TAwait _ => 1 | _ => 0 end.
Definition rank (s : Sys) : nat := host_rank (host s) + task_rank (task s).

(** ** Runs through the store *)

(** An operation on the channel just inserted at [i]. *)
Lemma chan_op_insert (i : nat) (o : Oneshot.op (WebSocketStream Conn))
    (m : gmap nat (Oneshot.Chan (WebSocketStream Conn))) (n : nat)
    (c c' : Oneshot.Chan (WebSocketStream Conn)) (out : Oneshot.outcome (WebSocketStream Conn)) :
  Oneshot.step_fn c o = Some (c', out) ->
  chan_op i o (mkWorld (<[i := c]> m) n) = (Some out, mkWorld (<[i := c']> m) n).
Proof.
  intros H. rewrite (chan_op_step i o _ c c' out); [| apply lookup_insert_eq | exact H].
  simpl. rewrite insert_insert_eq. reflexivity.
Qed.

Lemma init_eq (w : World Conn) (req : Request) :
  init w req
  = mkSys (mkWorld (<[next_id w := Oneshot.channel]> (chans w)) (S (next_id w)))
          (HRoute req (mkRocketWebsocket (mkSender (next_id w)) None))
          (TAwait (mkReceiver (next_id w))) [].
Proof. reflexivity. Qed.

(** The stream the task receives when the host upgrades [conn] for the
    responder of [new]. *)
Definition default_stream (conn : Conn) : WebSocketStream Conn :=
  mkWs conn Server WebSocketConfig_default.

(** The channel after a successful [on_upgrade] and after the receipt. *)
Definition chan_sent (v : WebSocketStream Conn) : Oneshot.Chan (WebSocketStream Conn) :=
  Oneshot.mkChan (Oneshot.mkInner (Some v) true false) false Oneshot.RxActive.
Definition chan_received : Oneshot.Chan (WebSocketStream Conn) :=
  Oneshot.mkChan (Oneshot.mkInner None true false) false Oneshot.RxDropped.

(** The schedule "respond, write, upgrade, receive" from the echo route. *)
Lemma valid_handshake_run (w : World Conn) (req : Request) (key : string) (conn : Conn) :
  check_handshake (req_headers req) = Ok key ->
  exists s, reachable w req s
    /\ task s = TGot (default_stream conn)
    /\ host s = HUpgraded conn (Ok tt)
    /\ log s = [EvResponse SwitchingProtocols; EvUpgrade; EvDelivered].
Proof.
  intros Hk. set (i := next_id w). set (ret := mkRocketWebsocket (mkSender i) None).
  set (m := chans w).
  exists (mkSys (mkWorld (<[i := chan_received]> m) (S i)) (HUpgraded conn (Ok tt))
            (TGot (default_stream conn)) [EvResponse SwitchingProtocols; EvUpgrade; EvDelivered]).
  split; [| repeat split].
  unfold reachable. rewrite init_eq. fold i ret m.
  eapply star_step. { left. apply st_respond. apply respond_ok. exact Hk. }
  eapply star_step. { left. apply st_write. reflexivity. }
  eapply star_step.
  { left. apply st_upgrade. cbn [bu_on_upgrade box_upgrade].
    apply (on_upgrade_step ret conn _ Oneshot.channel (chan_sent (default_stream conn)) (Ok tt));
      [apply lookup_insert_eq | reflexivity]. }
  eapply star_step.
  { left. apply st_recv_ok. unfold recv_and_drop. cbn [rx_id chans next_id tx_id inner ret].
    rewrite insert_insert_eq.
    erewrite chan_op_insert; [| reflexivity]. cbn [snd].
    erewrite chan_op_insert; [| reflexivity]. reflexivity. }
  apply star_refl.
Qed.

(** C1: End to end: for a valid handshake, the schedule "respond, write
    the response, upgrade the connection, receive" takes the echo route's
    state to one where the task holds the stream wrapping the host's
    connection in the server role with the default configuration, the
    upgrade succeeded, and the peer saw the 101 response before the
    upgrade and the delivery. *)
Theorem end_to_end (w : World Conn) (req : Request) (key : string) (conn : Conn) :
  check_handshake (req_headers req) = Ok key ->
  exists s, reachable w req s
    /\ task s = TGot (default_stream conn)
    /\ host s = HUpgraded conn (Ok tt)
    /\ log s = [EvResponse SwitchingProtocols; EvUpgrade; EvDelivered].
Proof. exact (valid_handshake_run w req key conn). Qed.

(** ** The invariant *)

Section Invariant.

(** The responder of [new], at channel [i]. *)
Variable i : nat.
Local Abbreviation ret := (mkRocketWebsocket (mkSender i) None).

Local Abbreviation mk v sent cl tx rx :=
  (Oneshot.mkChan (Oneshot.mkInner v sent cl) tx rx).

(** The hung-up error of [on_upgrade]. *)
Definition hung_up_error : io_Error := io_Error_new Other "Upgrade reciever hung up".

(** The host still owns the responder, and with it the sender. *)
Definition owns_sender (h : HostPhase) : Prop :=
  match h with
  | HRoute _ r => r = ret
  | HResponded resp => exists key, resp = switching_response key ret
  | HWritten u => u = box_upgrade ret
  | _ => False
  end.

(** The state of channel [i] that each pair of phases allows. *)
Definition chan_expected (h : HostPhase) (t : TaskPhase)
    (c : Oneshot.Chan (WebSocketStream Conn)) : Prop :=
  match h, t with
  | HUpgraded conn (Ok _), TAwait rx =>
      rx = mkReceiver i /\ c = mk (Some (upgraded_stream ret conn)) true false false Oneshot.RxActive
  | HUpgraded conn (Ok _), TGot v =>
      v = upgraded_stream ret conn /\ c = mk None true false false Oneshot.RxDropped
  | HUpgraded conn (Ok _), TDone =>
      c = mk (Some (upgraded_stream ret conn)) true true false Oneshot.RxDropped
  | HUpgraded _ (Err e), TDone =>
      e = hung_up_error /\ c = mk None false true false Oneshot.RxDropped
  | HUpgraded _ (Err _), _ => False
  | HRejected _, TAwait rx | HClosed, TAwait rx =>
      rx = mkReceiver i /\ c = mk None true false false Oneshot.RxActive
  | HRejected _, TDone | HClosed, TDone =>
      c = mk None true true false Oneshot.RxDropped \/ c = mk None false true false Oneshot.RxDropped
  | _, TGot _ => False
  | _, TAwait rx => owns_sender h /\ rx = mkReceiver i /\ c = Oneshot.channel
  | _, TDone => owns_sender h /\ c = mk None false true true Oneshot.RxDropped
  end.

(** [a] occurs in [l] before [b]. *)
Definition before (a b : Event) (l : list Event) : Prop :=
  exists l1 l2, l = l1 ++ a :: l2 /\ In b l2.

Definition sys_inv (s : Sys) : Prop :=
  (exists c, chans (world s) !! i = Some c /\ chan_expected (host s) (task s) c)
  /\ (match host s with
      | HWritten _ | HUpgraded _ _ => In (EvResponse SwitchingProtocols) (log s)
      | _ => True
      end)
  /\ (In EvDelivered (log s) -> before (EvResponse SwitchingProtocols) EvDelivered (log s)).

End Invariant.

(** ** Lemmas for the invariant *)

Lemma respond_ok_inv (r : RocketWebsocket) (req : Request) (w w' : World Conn) (resp : Response Conn) :
  respond r req w = (Ok resp, w') -> w' = w /\ exists key, resp = switching_response key r.
Proof.
  destruct (check_handshake (req_headers req)) as [key | st] eqn:E.
  - rewrite (respond_ok r req w key E). intros H. injection H as <- <-. eauto.
  - rewrite (respond_err r req w st E). discriminate.
Qed.

Lemma respond_err_inv (r : RocketWebsocket) (req : Request) (w w' : World Conn) (st : Status) :
  respond r req w = (Err st, w') -> st = BadRequest /\ w' = Sender_drop (inner r) w.
Proof.
  destruct (check_handshake (req_headers req)) as [key | st'] eqn:E.
  - rewrite (respond_ok r req w key E). discriminate.
  - rewrite (respond_err r req w st' E). intros H. injection H as <- <-.
    split; [exact (check_handshake_err _ _ E) | reflexivity].
Qed.

Lemma before_snoc (a b e : Event) (l : list Event) :
  before a b l -> before a b (l ++ [e]).
Proof.
  intros (l1 & l2 & -> & Hb). exists l1, (l2 ++ [e]).
  rewrite <- app_assoc. split; [reflexivity | apply in_or_app; left; exact Hb].
Qed.

Lemma before_last (a b : Event) (l : list Event) : In a l -> before a b (l ++ [b]).
Proof.
  intros Ha. apply in_split in Ha as (l1 & l2 & ->). exists l1, (l2 ++ [b]).
  rewrite <- app_assoc. split; [reflexivity | apply in_or_app; right; left; reflexivity].
Qed.

(** The lookup of a channel after an operation on it. *)
Lemma lookup_after_op (j : nat) (o : Oneshot.op (WebSocketStream Conn)) (w : World Conn)
    (c c' : Oneshot.Chan (WebSocketStream Conn)) (out : Oneshot.outcome (WebSocketStream Conn)) :
  chans w !! j = Some c -> Oneshot.step_fn c o = Some (c', out) ->
  chans (snd (chan_op j o w)) !! j = Some c'.
Proof.
  intros Hc Hs. rewrite (chan_op_step j o w c c' out Hc Hs). apply lookup_insert_eq.
Qed.

(** ** Preservation *)

Local Ltac destruct_hyps :=
  repeat match goal with
         | H : _ /\ _ |- _ => destruct H
         | H : exists _, _ |- _ => destruct H
         | H : False |- _ => destruct H
         end; subst.

(** The log facts after an event that is not a delivery. *)
Lemma log_inv_snoc (l : list Event) (e : Event) :
  e <> EvDelivered ->
  (In EvDelivered l -> before (EvResponse SwitchingProtocols) EvDelivered l) ->
  In EvDelivered (l ++ [e]) -> before (EvResponse SwitchingProtocols) EvDelivered (l ++ [e]).
Proof.
  intros He H2 Hin. apply in_app_or in Hin as [Hin | [E | []]].
  - apply before_snoc, H2, Hin.
  - congruence.
Qed.

Lemma init_sys_inv (w : World Conn) (req : Request) : sys_inv (next_id w) (init w req).
Proof.
  rewrite init_eq. unfold sys_inv. cbn [world host task log chans].
  split; [| split; [exact I | intros []]].
  exists Oneshot.channel. split; [apply lookup_insert_eq |].
  simpl. auto.
Qed.

(** [rx.await] on a channel of the store, then the drop of [rx]. *)
Lemma recv_and_drop_at (j : nat) (w : World Conn) (c c1 c2 : Oneshot.Chan (WebSocketStream Conn))
    (out out2 : Oneshot.outcome (WebSocketStream Conn)) :
  chans w !! j = Some c -> Oneshot.step_fn c Oneshot.OpPoll = Some (c1, out) ->
  Oneshot.step_fn c1 Oneshot.OpDropRx = Some (c2, out2) ->
  recv_and_drop (mkReceiver j) w = (Some out, mkWorld (<[j := c2]> (chans w)) (next_id w)).
Proof.
  intros Hc H1 H2. unfold recv_and_drop. cbn [rx_id].
  rewrite (chan_op_step j _ w c c1 out Hc H1). cbn [snd].
  rewrite (chan_op_insert j _ _ _ c1 c2 out2 H2).
  reflexivity.
Qed.

(** Every step of the host or the task keeps the invariant. *)
Lemma step_sys_inv (i : nat) (s s' : Sys) : sys_inv i s -> step s s' -> sys_inv i s'.
Proof.
  intros [(c & Hc & He) (Hl1 & Hl2)] Hs. unfold sys_inv.
  destruct Hs as [w req r t l resp w' H | w req r t l st w' H | w resp u t l H | w resp u t l H
                 | w u conn t l r w' H | w u t l | w h rx l ws w' H | w h rx l e w' H];
    cbn [world host task log] in *.
  - (* respond: Ok *)
    apply respond_ok_inv in H as [-> [key ->]].
    split; [| split; [exact I | exact Hl2]].
    exists c. split; [exact Hc |].
    destruct t; cbn in He |- *; destruct_hyps; eauto.
  - (* respond: Err *)
    apply respond_err_inv in H as [-> ->].
    pose proof (log_inv_snoc l (EvResponse BadRequest) ltac:(discriminate) Hl2) as Hl2'.
    split; [| split; [exact I | exact Hl2']].
    destruct t; cbn in He; destruct_hyps;
      (eexists; split; [eapply lookup_after_op; [exact Hc | reflexivity] |]); cbn; auto.
  - (* write *)
    pose proof (log_inv_snoc l (EvResponse (status resp)) ltac:(discriminate) Hl2) as Hl2'.
    destruct t; cbn in He; destruct_hyps; injection H as <-;
      (split; [| split; [apply in_or_app; right; left; reflexivity | exact Hl2']]);
      (eexists; split; [exact Hc |]); cbn; auto.
  - (* write fails *)
    destruct t; cbn in He; destruct_hyps; injection H as <-;
      (split; [| split; [exact I | exact Hl2]]);
      (eexists; split; [eapply lookup_after_op; [exact Hc | reflexivity] |]); cbn; auto.
  - (* upgrade *)
    pose proof (log_inv_snoc l EvUpgrade ltac:(discriminate) Hl2) as Hl2'.
    destruct t; cbn in He; destruct_hyps; cbn in H.
    + rewrite (on_upgrade_step (mkRocketWebsocket (mkSender i) None) conn w _ _ (Ok tt) Hc eq_refl) in H. injection H as <- <-.
      split; [| split; [apply in_or_app; left; exact Hl1 | exact Hl2']].
      eexists. split; [apply lookup_insert_eq |]. cbn. auto.
    + rewrite (on_upgrade_step (mkRocketWebsocket (mkSender i) None) conn w _ _ (Err (upgraded_stream (mkRocketWebsocket (mkSender i) None) conn)) Hc eq_refl) in H.
      injection H as <- <-.
      split; [| split; [apply in_or_app; left; exact Hl1 | exact Hl2']].
      eexists. split; [apply lookup_insert_eq |]. cbn. auto.
  - (* close *)
    destruct t; cbn in He; destruct_hyps;
      (split; [| split; [exact I | exact Hl2]]);
      (eexists; split; [eapply lookup_after_op; [exact Hc | reflexivity] |]); cbn; auto.
  - (* receive: Ok *)
    destruct h; cbn in He; destruct_hyps;
      try (rewrite (recv_and_drop_at i w _ _ _ _ _ Hc eq_refl eq_refl) in H; discriminate).
    destruct r; [| contradiction]. destruct_hyps.
    rewrite (recv_and_drop_at i w _ _ _ _ _ Hc eq_refl eq_refl) in H.
    injection H as <- <-.
    split; [| split; [apply in_or_app; left; exact Hl1 | intros _; apply before_last, Hl1]].
    eexists. split; [apply lookup_insert_eq |]. cbn. auto.
  - (* receive: Err *)
    destruct h; cbn in He; destruct_hyps;
      try (rewrite (recv_and_drop_at i w _ _ _ _ _ Hc eq_refl eq_refl) in H; discriminate);
      try (destruct r; [| contradiction]; destruct_hyps;
           rewrite (recv_and_drop_at i w _ _ _ _ _ Hc eq_refl eq_refl) in H; discriminate);
      rewrite (recv_and_drop_at i w _ _ _ _ _ Hc eq_refl eq_refl) in H;
      injection H; intros; subst;
      (split; [| split; [exact Hl1 | exact Hl2]]);
      (eexists; split; [apply lookup_insert_eq |]); cbn; auto.
Qed.

(** Cancelling the waiting task keeps the invariant. *)
Lemma cancel_sys_inv (i : nat) (s s' : Sys) : sys_inv i s -> cancel s s' -> sys_inv i s'.
Proof.
  intros [(c & Hc & He) (Hl1 & Hl2)] Hs. unfold sys_inv.
  destruct Hs as [w h rx l]; cbn [world host task log] in *.
  destruct h; cbn in He; destruct_hyps; try (destruct r; [| contradiction]; destruct_hyps);
    (split; [| split; [exact Hl1 | exact Hl2]]);
    (eexists; split; [eapply lookup_after_op; [exact Hc | reflexivity] |]); cbn; eauto.
Qed.

Lemma reachable_sys_inv (w : World Conn) (req : Request) (s : Sys) :
  reachable w req s -> sys_inv (next_id w) s.
Proof.
  intros R. refine (star_invariant sys_step (sys_inv (next_id w)) _ (init w req) s R (init_sys_inv w req)).
  intros a b Ha [St | St]; [exact (step_sys_inv _ a b Ha St) | exact (cancel_sys_inv _ a b Ha St)].
Qed.

(** A state reached from a reachable one by steps is reachable. *)
Lemma reachable_steps (w : World Conn) (req : Request) (s s' : Sys) :
  reachable w req s -> star step s s' -> reachable w req s'.
Proof.
  intros R R'. eapply star_trans; [exact R |].
  exact (star_incl step sys_step (fun a b St => or_introl St) s s' R').
Qed.

(** While the handshake is rejected, the host never gets past the error
    response. *)
Lemma rejected_host (w : World Conn) (req : Request) (st : Status) (s : Sys) :
  check_handshake (req_headers req) = Err st -> reachable w req s ->
  (exists r, host s = HRoute req r) \/ (exists st', host s = HRejected st').
Proof.
  intros E R. unfold reachable in R. rewrite init_eq in R.
  apply (star_invariant sys_step (fun s => (exists r, host s = HRoute req r)
                                        \/ (exists st', host s = HRejected st'))) with (2 := R).
  - intros a b Hs [Hab | Hab]; destruct Hs as [[r Hr] | [st' Hr]];
      destruct Hab; cbn in Hr |- *; try discriminate; eauto.
    injection Hr; intros; subst. exfalso.
    match goal with
    | H : respond _ _ _ = (Ok _, _) |- _ => rewrite (respond_err _ _ _ _ E) in H; discriminate
    end.
  - left. eauto.
Qed.

(** C5: The stream the task receives is the one [on_upgrade] built for
    the host's connection: a successful upgrade of that very
    connection, in the server role, with the default configuration of
    [new]. *)
Theorem delivered_stream_is_host_connection (w : World Conn) (req : Request) (s : Sys)
    (v : WebSocketStream Conn) :
  reachable w req s -> task s = TGot v ->
  exists conn, host s = HUpgraded conn (Ok tt) /\ v = mkWs conn Server WebSocketConfig_default.
Proof.
  intros R Ht. destruct (reachable_sys_inv w req s R) as [(c & _ & He) _].
  rewrite Ht in He. destruct (host s) as [| | | conn [[]|e] | |] eqn:Eh; cbn in He;
    try contradiction.
  destruct He as [-> _]. exists conn. split; reflexivity.
Qed.

(** C6: Ordering: whenever the task has the stream, the peer has been
    sent the 101 response before the delivery. *)
Theorem delivery_after_switching_response (w : World Conn) (req : Request) (s : Sys) :
  reachable w req s -> In EvDelivered (log s) ->
  before (EvResponse SwitchingProtocols) EvDelivered (log s).
Proof. intros R. apply (reachable_sys_inv w req s R). Qed.

(** C7: No silent wait: once the host has rejected the request, or has
    dropped the upgrade handler without calling it, the sender is gone
    with the responder. The waiting task's [rx.await] then resolves to
    [Err(RecvError)], never to a stream and never [Pending], and the
    task's step ends it. *)
Theorem hang_up_resolves (w : World Conn) (req : Request) (s : Sys) (rx : Receiver) :
  reachable w req s -> task s = TAwait rx ->
  (exists st, host s = HRejected st) \/ host s = HClosed ->
  exists e w', recv_and_drop rx (world s) = (Some (Oneshot.OPolled (Some (Err e))), w')
    /\ step s (mkSys w' (host s) TDone (log s)).
Proof.
  intros R Ht Hh. destruct (reachable_sys_inv w req s R) as [(c & Hc & He) _].
  destruct s as [ws h t l]; cbn in *; subst t.
  destruct Hh as [[st ->] | ->]; cbn in He; destruct He as [-> ->];
    pose proof (recv_and_drop_at _ ws _ _ _ _ _ Hc eq_refl eq_refl) as Hr;
    (do 2 eexists; split; [exact Hr | eapply st_recv_err; exact Hr]).
Qed.

(** C9: A rejected handshake never delivers a stream: the task can only
    wait or end. *)
Theorem rejected_never_delivers (w : World Conn) (req : Request) (st : Status) (s : Sys)
    (v : WebSocketStream Conn) :
  check_handshake (req_headers req) = Err st -> reachable w req s -> task s <> TGot v.
Proof.
  intros E R Ht. destruct (reachable_sys_inv w req s R) as [(c & _ & He) _].
  rewrite Ht in He.
  destruct (rejected_host w req st s E R) as [[r Hr] | [st' Hr]]; rewrite Hr in He; exact He.
Qed.

(** C11: If the task is gone before the host upgrades, the upgrade
    reports the [io::Error] "Upgrade reciever hung up" to the host. *)
Theorem upgrade_after_consumer_gone (w : World Conn) (req : Request) (s : Sys)
    (u : BoxedUpgrade Conn) (conn : Conn) :
  reachable w req s -> task s = TDone -> host s = HWritten u ->
  exists s', step s s' /\ host s' = HUpgraded conn (Err hung_up_error).
Proof.
  intros R Ht Hh. destruct (reachable_sys_inv w req s R) as [(c & Hc & He) _].
  destruct s as [ws h t l]; cbn in *; subst t h. cbn in He. destruct He as [-> ->].
  eexists. split.
  - apply st_upgrade. cbn [bu_on_upgrade box_upgrade].
    exact (on_upgrade_step (mkRocketWebsocket (mkSender (next_id w)) None) conn ws _ _ _ Hc eq_refl).
  - reflexivity.
Qed.

(** ** Termination and progress *)

Lemma step_rank (s s' : Sys) : step s s' -> rank s' < rank s.
Proof. intros St. destruct St; unfold rank; cbn; lia. Qed.

(** No reachable state is stuck: until the run has ended, the host or
    the task can act, without the task being cancelled. A waiting task
    can always receive once the host has finished: the stream is in the
    slot after an upgrade, and the sender is dropped after a rejection
    or a close. *)
Lemma progress (w : World Conn) (req : Request) (s : Sys) :
  reachable w req s -> final s = false -> exists s', step s s'.
Proof.
  intros R Hf. destruct (reachable_sys_inv w req s R) as [(c & Hc & He) _].
  destruct s as [ws h t l]; cbn in *.
  destruct h as [req' r | resp | u | conn r | st |]; cbn in Hf, He.
  - destruct (respond r req' ws) as [[resp | st] w'] eqn:E;
      eexists; [apply st_respond | apply st_reject]; exact E.
  - destruct t; try contradiction; destruct He as [[key ->] _]; eexists; apply st_write; reflexivity.
  - eexists; apply st_close.
  - destruct t as [rx | v |]; try discriminate. destruct r as [[] | e]; [| contradiction].
    destruct He as [-> ->]. eexists; eapply st_recv_ok; exact (recv_and_drop_at _ ws _ _ _ _ _ Hc eq_refl eq_refl).
  - destruct t as [rx | v |]; try discriminate. destruct He as [-> ->].
    eexists; eapply st_recv_err; exact (recv_and_drop_at _ ws _ _ _ _ _ Hc eq_refl eq_refl).
  - destruct t as [rx | v |]; try discriminate. destruct He as [-> ->].
    eexists; eapply st_recv_err; exact (recv_and_drop_at _ ws _ _ _ _ _ Hc eq_refl eq_refl).
Qed.

Lemma step_wf : well_founded (fun s' s : Sys => step s s').
Proof.
  apply (Wf_nat.well_founded_lt_compat _ rank). intros s' s St. exact (step_rank s s' St).
Qed.

(** From a reachable state, the two parties' steps reach a final state. *)
Lemma reaches_final (w : World Conn) (req : Request) (s : Sys) :
  reachable w req s -> exists s', star step s s' /\ final s' = true.
Proof.
  induction s as [s IH] using (well_founded_induction step_wf).
  intros R. destruct (final s) eqn:Hf; [exists s; split; [apply star_refl | exact Hf] |].
  destruct (progress w req s R Hf) as [s1 St].
  destruct (IH s1 St (reachable_steps w req s s1 R (star_one _ _ _ St))) as (s2 & R2 & F2).
  exists s2. split; [eapply star_step; [exact St | exact R2] | exact F2].
Qed.

(** C24: Every run ends: from any state reachable from the echo route,
    with or without a cancellation so far, the host's and the task's
    own steps reach a final state, where the host has upgraded, rejected
    or closed and the task holds the stream or has returned. Every state
    they reach in which neither party can act is final: the task is
    never left waiting on a channel that nobody will complete. *)
Theorem runs_end_final (w : World Conn) (req : Request) (s : Sys) :
  reachable w req s ->
  (exists s', star step s s' /\ final s' = true)
  /\ (forall s', star step s s' -> (forall s'', ~ step s' s'') -> final s' = true).
Proof.
  intros R. split; [exact (reaches_final w req s R) |].
  intros s' R' Hstuck. destruct (final s') eqn:Hf; [reflexivity | exfalso].
  destruct (progress w req s' (reachable_steps w req s s' R R') Hf) as [s'' St].
  exact (Hstuck s'' St).
Qed.

End WithConn.

Arguments HostPhase : clear implicits.
Arguments TaskPhase : clear implicits.
Arguments Sys : clear implicits.

(** ** Concrete runs *)

Local Abbreviation w_e := (@World_empty nat).

(** The states of the end-to-end run of [req_valid], on connection 7. *)
Definition w_sent : World nat := snd (on_upgrade ws_0 7 w_1).
Definition w_final : World nat := snd (recv_and_drop (mkReceiver 0) w_sent).
Definition s_final : Sys nat :=
  mkSys w_final (HUpgraded 7 (Ok tt)) (TGot (default_stream 7))
        [EvResponse SwitchingProtocols; EvUpgrade; EvDelivered].

Lemma reach_final : reachable w_e req_valid s_final.
Proof.
  unfold reachable. change (init w_e req_valid) with
    (mkSys w_1 (HRoute req_valid ws_0) (TAwait (mkReceiver 0)) []).
  apply star_step with (mkSys w_1 (HResponded (switching_response rfc_key ws_0))
                              (TAwait (mkReceiver 0)) []); [left; apply st_respond; reflexivity |].
  apply star_step with (mkSys w_1 (HWritten (box_upgrade ws_0)) (TAwait (mkReceiver 0))
                              [EvResponse SwitchingProtocols]); [left; apply st_write; reflexivity |].
  apply star_step with (mkSys w_sent (HUpgraded 7 (Ok tt)) (TAwait (mkReceiver 0))
                              [EvResponse SwitchingProtocols; EvUpgrade]);
    [left; apply st_upgrade; reflexivity |].
  apply star_step with s_final; [left; apply st_recv_ok; reflexivity | apply star_refl].
Qed.

(** The rejected run of [req_bad_version]. *)
Definition s_rejected : Sys nat :=
  mkSys (Sender_drop (mkSender 0) w_1) (HRejected BadRequest) (TAwait (mkReceiver 0))
        [EvResponse BadRequest].

Lemma reach_rejected : reachable w_e req_bad_version s_rejected.
Proof.
  unfold reachable. change (init w_e req_bad_version) with
    (mkSys w_1 (HRoute req_bad_version ws_0) (TAwait (mkReceiver 0)) []).
  apply star_step with s_rejected; [left; apply st_reject; reflexivity | apply star_refl].
Qed.

(** The task is cancelled after the 101 response, before the upgrade. *)
Definition s_task_gone : Sys nat :=
  mkSys (snd (chan_op 0 Oneshot.OpDropRx w_1)) (HWritten (box_upgrade ws_0)) TDone
        [EvResponse SwitchingProtocols].

Lemma reach_task_gone : reachable w_e req_valid s_task_gone.
Proof.
  unfold reachable. change (init w_e req_valid) with
    (mkSys w_1 (HRoute req_valid ws_0) (TAwait (mkReceiver 0)) []).
  apply star_step with (mkSys w_1 (HResponded (switching_response rfc_key ws_0))
                              (TAwait (mkReceiver 0)) []); [left; apply st_respond; reflexivity |].
  apply star_step with (mkSys w_1 (HWritten (box_upgrade ws_0)) (TAwait (mkReceiver 0))
                              [EvResponse SwitchingProtocols]); [left; apply st_write; reflexivity |].
  apply star_step with s_task_gone; [right; apply st_cancel | apply star_refl].
Qed.

Lemma end_to_end_witness :
  check_handshake (req_headers req_valid) = Ok rfc_key
  /\ exists s, reachable w_e req_valid s
    /\ task s = TGot (default_stream 7)
    /\ host s = HUpgraded 7 (Ok tt)
    /\ log s = [EvResponse SwitchingProtocols; EvUpgrade; EvDelivered].
Proof.
  split; [reflexivity |]. apply (end_to_end w_e req_valid rfc_key 7). reflexivity.
Defined.

Lemma delivered_stream_is_host_connection_witness :
  reachable w_e req_valid s_final /\ task s_final = TGot (default_stream 7)
  /\ exists conn, host s_final = HUpgraded conn (Ok tt)
                  /\ default_stream 7 = mkWs conn Server WebSocketConfig_default.
Proof.
  split; [exact reach_final | split; [reflexivity |]].
  exact (delivered_stream_is_host_connection w_e req_valid s_final _ reach_final eq_refl).
Defined.

Lemma delivery_after_switching_response_witness :
  reachable w_e req_valid s_final /\ In EvDelivered (log s_final)
  /\ before (EvResponse SwitchingProtocols) EvDelivered (log s_final).
Proof.
  split; [exact reach_final | split; [simpl; tauto |]].
  apply (delivery_after_switching_response w_e req_valid s_final reach_final). simpl; tauto.
Defined.

Lemma hang_up_resolves_witness :
  reachable w_e req_bad_version s_rejected /\ task s_rejected = TAwait (mkReceiver 0)
  /\ ((exists st, host s_rejected = HRejected st) \/ host s_rejected = HClosed)
  /\ exists e w', recv_and_drop (mkReceiver 0) (world s_rejected)
                  = (Some (Oneshot.OPolled (Some (Err e))), w')
      /\ step s_rejected (mkSys w' (host s_rejected) TDone (log s_rejected)).
Proof.
  assert (Hh : (exists st, host s_rejected = HRejected st) \/ host s_rejected = HClosed)
    by (left; eexists; reflexivity).
  split; [exact reach_rejected | split; [reflexivity | split; [exact Hh |]]].
  exact (hang_up_resolves w_e req_bad_version s_rejected (mkReceiver 0) reach_rejected eq_refl Hh).
Defined.

Lemma rejected_never_delivers_witness :
  check_handshake (req_headers req_bad_version) = Err BadRequest
  /\ reachable w_e req_bad_version s_rejected /\ task s_rejected <> TGot (default_stream 7).
Proof.
  split; [reflexivity | split; [exact reach_rejected |]].
  exact (rejected_never_delivers w_e req_bad_version BadRequest s_rejected _ eq_refl reach_rejected).
Defined.

Lemma upgrade_after_consumer_gone_witness :
  reachable w_e req_valid s_task_gone /\ task s_task_gone = TDone
  /\ host s_task_gone = HWritten (box_upgrade ws_0)
  /\ exists s', step s_task_gone s' /\ host s' = HUpgraded 7 (Err hung_up_error).
Proof.
  split; [exact reach_task_gone | split; [reflexivity | split; [reflexivity |]]].
  exact (upgrade_after_consumer_gone w_e req_valid s_task_gone _ 7 reach_task_gone eq_refl eq_refl).
Defined.

Lemma runs_end_final_witness :
  reachable w_e req_bad_version s_rejected
  /\ (exists s', star step s_rejected s' /\ final s' = true)
  /\ (forall s', star step s_rejected s' -> (forall s'', ~ step s' s'') -> final s' = true).
Proof.
  split; [exact reach_rejected |]. exact (runs_end_final w_e req_bad_version s_rejected reach_rejected).
Defined.

End Lifecycle.
