(* ===== verification/Echo.v ===== *)
(** * The echo task's forwarding loop (examples/echo.rs 16-24)

    Once [rx.await] gives the stream, the spawned task splits it and
    runs [read.take_while(|m| ready(m.as_ref().unwrap().is_text()))
    .forward(write).await.expect("failed to forward message")].

    - [take_while_pred] is the closure. [take_while_next] is one
      [TakeWhile::poll_next] on one event of the read half, and [forward]
      is the loop of [futures::stream::Forward::poll]: send the buffered
      item, poll the stream, and then buffer the item, flush on
      [Pending] or close at the end.
    - The write half is the [Sink] interface of the futures crate, with
      the laws in [SinkSpec]. The loop's theorems are proved against
      that interface. [Wire] is a connection whose write side may have
      failed, and its instance discharges the laws.
    - [echo_spec] is what the echo promises: every text message up to
      the first non-text message, error or end of the stream.
      [echo_task_refines_echo_spec] shows that the loop implements it.
    - [sink_equiv] identifies sinks the peer cannot tell apart: the same
      messages accepted and the same closed state. [pending_unobservable]
      shows that the flushes at [Pending] events change nothing the peer
      can observe.
    - [failed_sink_panics_in_expect]: on a write half whose operations
      all fail, the first read event decides between the panic in
      [unwrap] and the panic in [expect]. *)

From Stdlib Require Import String List Setoid Morphisms.
From S2P Require Import Prelude.

Import ListNotations.
Local Open Scope ws_scope.

Module Echo.

(** [tungstenite::Message]. *)
Inductive Message :=
| Text (s : string)
| Binary (b : list byte)
| Ping (b : list byte)
| Pong (b : list byte)
| Close.

(** [Message::is_text]. *)
Definition is_text (m : Message) : bool :=
  match m with Text _ => true | _ => false end.

(** [tungstenite::Error], the variants the loop can meet. *)
Inductive Error := ConnectionClosed | AlreadyClosed | Io | Protocol | Capacity | Utf8.

(** One poll of the read half [SplitStream]: an item, the end of the
    stream, or [Pending]. *)
Inductive Poll :=
| Ready (item : option (result Message Error))
| NotReady.

(** How the spawned task ends. [Suspended]: the events modelled have run
    out while the task waits for the next one. *)
Inductive Exit :=
| Completed
| Suspended
| PanicUnwrap (e : Error)
| PanicExpect (msg : string) (e : Error).

Definition FORWARD_FAILED : string := "failed to forward message".

(** The closure [|m| future::ready(m.as_ref().unwrap().is_text())]: on
    [Err] the [unwrap] panics, written here as [Err]. *)
Definition take_while_pred (item : result Message Error) : result bool Error :=
  match item with
  | Ok m => Ok (is_text m)
  | Err e => Err e
  end.

(** What [TakeWhile::poll_next] returns. *)
Inductive TWPoll :=
| TWItem (item : result Message Error)
| TWEnd
| TWPending
| TWPanic (e : Error).

(** [TakeWhile::poll_next]: an item the predicate rejects is dropped and
    ends the stream. *)
Definition take_while_next (p : Poll) : TWPoll :=
  match p with
  | NotReady => TWPending
  | Ready None => TWEnd
  | Ready (Some item) =>
      match take_while_pred item with
      | Err e => TWPanic e
      | Ok true => TWItem item
      | Ok false => TWEnd
      end
  end.

(** The futures [Sink<Message>] trait of the write half; [poll_ready]
    and [start_send] are one operation. *)
Class Sink (S : Type) := {
  start_send : S -> Message -> result S Error;
  poll_flush : S -> result S Error;
  poll_close : S -> result S Error
}.

Section Forward.

Context {S : Type} `{Sink S}.

(** [Forward::poll], one turn of its loop per call. The buffered item is
    sent first. Then the stream is polled: an item is buffered, [Pending]
    flushes the sink (the task is woken at the next event), and the end
    closes the sink. Every [Err] of the [?]s is the error [forward]
    returns, on which [expect] panics. *)
Fixpoint forward (tr : list Poll) (buffered : option Message) (si : S) : S * Exit :=
  match match buffered with Some m => start_send si m | None => Ok si end with
  | Err e => (si, PanicExpect FORWARD_FAILED e)
  | Ok si =>
      match tr with
      | [] => (si, Suspended)
      | p :: tr' =>
          match take_while_next p with
          | TWItem (Ok m) => forward tr' (Some m) si
          | TWItem (Err e) => (si, PanicExpect FORWARD_FAILED e)
          | TWEnd =>
              match poll_close si with
              | Ok si' => (si', Completed)
              | Err e => (si, PanicExpect FORWARD_FAILED e)
              end
          | TWPending =>
              match poll_flush si with
              | Ok si' => forward tr' None si'
              | Err e => (si, PanicExpect FORWARD_FAILED e)
              end
          | TWPanic e => (si, PanicUnwrap e)
          end
      end
  end.

(** The spawned task, [if let Ok(ws_stream) = rx.await { .. }]: [None]
    when the receive failed and the task returns at once. [split] gives
    the write half of the stream; [tr] is what its read half yields. *)
Definition echo_task {WS R : Type} (split : WS -> S) (received : result WS R)
    (tr : list Poll) : option (S * Exit) :=
  match received with
  | Ok ws_stream => Some (forward tr None (split ws_stream))
  | Err _ => None
  end.

End Forward.

(** ** What the echo promises *)

(** The items of the read half, without the waits. *)
Fixpoint ready_items (tr : list Poll) : list (option (result Message Error)) :=
  match tr with
  | [] => []
  | Ready i :: tr' => i :: ready_items tr'
  | NotReady :: tr' => ready_items tr'
  end.

(** The trace with its [Pending] events left out. *)
Definition strip_pending (tr : list Poll) : list Poll :=
  filter (fun p => match p with NotReady => false | Ready _ => true end) tr.

(** The text messages up to the first non-text message (the echo then
    completes), read error (the task panics) or end of the stream. *)
Fixpoint echo_spec (items : list (option (result Message Error))) : list Message * Exit :=
  match items with
  | [] => ([], Suspended)
  | None :: _ => ([], Completed)
  | Some (Err e) :: _ => ([], PanicUnwrap e)
  | Some (Ok m) :: rest =>
      if is_text m then let '(ms, x) := echo_spec rest in (m :: ms, x) else ([], Completed)
  end.

Definition exit_closes (x : Exit) : bool :=
  match x with Completed => true | _ => false end.

Definition option_list {A : Type} (o : option A) : list A :=
  match o with Some a => [a] | None => [] end.

(** The laws a write half keeps while its connection is sound: what it
    has accepted, [written], grows by each sent message; a flush keeps
    it; a close marks the sink closed. *)
Class SinkSpec (S : Type) `{Sink S} := {
  written : S -> list Message;
  is_closed : S -> bool;
  healthy : S -> Prop;
  start_send_ok : forall s m, healthy s -> is_closed s = false ->
    exists s', start_send s m = Ok s' /\ healthy s' /\ is_closed s' = false
               /\ written s' = written s ++ [m];
  poll_flush_ok : forall s, healthy s -> is_closed s = false ->
    exists s', poll_flush s = Ok s' /\ healthy s' /\ is_closed s' = false
               /\ written s' = written s;
  poll_close_ok : forall s, healthy s -> is_closed s = false ->
    exists s', poll_close s = Ok s' /\ is_closed s' = true /\ written s' = written s
}.

(** Two sinks that have accepted the same messages and are both open or
    both closed: what the peer can observe of them. *)
Definition sink_equiv {S : Type} `{SinkSpec S} (a b : S) : Prop :=
  written a = written b /\ is_closed a = is_closed b.

(** ** The connection's write side *)

(** The write half of a [WebSocketStream]: what the peer has received,
    what is queued, whether the close frame was sent, and the error of
    the write side once the connection has failed. *)
Record Wire := mkWire {
  delivered : list Message;
  queued : list Message;
  wire_closed : bool;
  wire_error : option Error
}.

Definition wire_check (w : Wire) : result unit Error :=
  match wire_error w with
  | Some e => Err e
  | None => if wire_closed w then Err AlreadyClosed else Ok tt
  end.

#[export] Instance Sink_Wire : Sink Wire := {
  start_send w m :=
    _ <-? wire_check w ;; Ok (mkWire (delivered w) (queued w ++ [m]) false None);
  poll_flush w :=
    _ <-? wire_check w ;; Ok (mkWire (delivered w ++ queued w) [] false None);
  poll_close w :=
    _ <-? wire_check w ;; Ok (mkWire (delivered w ++ queued w) [] true None)
}.

Definition fresh_wire : Wire := mkWire [] [] false None.

(** A connection whose write side failed with [e]. *)
Definition broken_wire (e : Error) : Wire := mkWire [] [] false (Some e).

(** ** The loop implements the promise *)

Section Refinement.

Context {S : Type} `{SinkSpec S}.

(** Sending the buffered item, the first thing a turn of the loop does. *)
Lemma send_buffered_ok (b : option Message) (si : S) :
  healthy si -> is_closed si = false ->
  exists si1, match b with Some m => start_send si m | None => Ok si end = Ok si1
    /\ healthy si1 /\ is_closed si1 = false /\ written si1 = written si ++ option_list b.
Proof.
  destruct b as [m|]; [apply start_send_ok |].
  intros Hh Hc. exists si. rewrite app_nil_r. auto.
Qed.

(** The invariant of the loop: from any buffered item, the rest of the
    run writes the buffered item and then the promised messages. *)
Lemma forward_spec (tr : list Poll) : forall (b : option Message) (si : S),
  healthy si -> is_closed si = false ->
  exists si', forward tr b si = (si', snd (echo_spec (ready_items tr)))
    /\ written si' = written si ++ option_list b ++ fst (echo_spec (ready_items tr))
    /\ is_closed si' = exit_closes (snd (echo_spec (ready_items tr))).
Proof.
  induction tr as [|p tr IH]; intros b si Hh Hc;
    destruct (send_buffered_ok b si Hh Hc) as (si1 & Hs & Hh1 & Hc1 & Hw1);
    cbn [forward]; rewrite Hs.
  - exists si1. rewrite Hw1, app_nil_r. auto.
  - destruct p as [[[m|e]|]|]; cbn [take_while_next take_while_pred ready_items echo_spec].
    + destruct (is_text m) eqn:Et.
      * destruct (IH (Some m) si1 Hh1 Hc1) as (si' & Hf & Hw & Hcl). rewrite Hf.
        destruct (echo_spec (ready_items tr)) as [ms x]. cbn in *.
        exists si'. rewrite Hw, Hw1, <- app_assoc. auto.
      * destruct (poll_close_ok si1 Hh1 Hc1) as (si' & Hp & Hcl & Hw). rewrite Hp.
        exists si'. rewrite Hw, Hw1, app_nil_r. auto.
    + exists si1. rewrite Hw1, app_nil_r. auto.
    + destruct (poll_close_ok si1 Hh1 Hc1) as (si' & Hp & Hcl & Hw). rewrite Hp.
      exists si'. rewrite Hw, Hw1, app_nil_r. auto.
    + destruct (poll_flush_ok si1 Hh1 Hc1) as (si2 & Hp & Hh2 & Hc2 & Hw2). rewrite Hp.
      destruct (IH None si2 Hh2 Hc2) as (si' & Hf & Hw & Hcl). rewrite Hf.
      exists si'. rewrite Hw, Hw2, Hw1, <- app_assoc. auto.
Qed.

End Refinement.


(** ** A prefix of text messages *)

(** Every item is a text message. *)
Definition all_text (items : list (option (result Message Error))) : bool :=
  forallb (fun i => match i with Some (Ok m) => is_text m | _ => false end) items.

(** The messages of the items. *)
Definition messages (items : list (option (result Message Error))) : list Message :=
  flat_map (fun i => match i with Some (Ok m) => [m] | _ => [] end) items.

Lemma ready_items_app (tr1 tr2 : list Poll) :
  ready_items (tr1 ++ tr2) = ready_items tr1 ++ ready_items tr2.
Proof. induction tr1 as [|[i|] tr1 IH]; cbn; [reflexivity | rewrite IH | exact IH]; reflexivity. Qed.

(** A prefix of text messages is echoed as it is, then the rest runs. *)
Lemma echo_spec_text_prefix (items rest : list (option (result Message Error))) :
  all_text items = true ->
  echo_spec (items ++ rest)
  = (messages items ++ fst (echo_spec rest), snd (echo_spec rest)).
Proof.
  induction items as [|[[m|e]|] items IH]; cbn; try discriminate.
  - destruct (echo_spec rest); reflexivity.
  - destruct (is_text m); [| discriminate]. intros Ht. rewrite (IH Ht). reflexivity.
Qed.

Lemma echo_spec_no_expect (items : list (option (result Message Error))) (msg : string)
    (e : Error) :
  snd (echo_spec items) <> PanicExpect msg e.
Proof.
  induction items as [|[[m|e']|] items IH]; cbn; try discriminate.
  destruct (is_text m); [| discriminate]. destruct (echo_spec items) eqn:E. exact IH.
Qed.

Lemma ready_items_strip (tr : list Poll) : ready_items (strip_pending tr) = ready_items tr.
Proof. unfold strip_pending. induction tr as [|[i|] tr IH]; cbn [filter ready_items]; congruence. Qed.

#[export] Hint Rewrite ready_items_app ready_items_strip : wsdb_rw.

#[export] Instance sink_equiv_Equivalence {S : Type} `{SinkSpec S} : Equivalence sink_equiv.
Proof. unfold sink_equiv. split; repeat intro; intuition congruence. Qed.

#[export] Instance written_Proper {S : Type} `{SinkSpec S} : Proper (sink_equiv ==> eq) written.
Proof. intros a b [Hw _]. exact Hw. Qed.

(** ** The write side's laws *)

Lemma wire_check_ok (w : Wire) :
  wire_error w = None -> wire_closed w = false -> wire_check w = Ok tt.
Proof. intros He Hc. unfold wire_check. rewrite He, Hc. reflexivity. Qed.

Definition wire_written (w : Wire) : list Message := delivered w ++ queued w.
Definition wire_healthy (w : Wire) : Prop := wire_error w = None.

Lemma wire_start_send_ok (w : Wire) (m : Message) :
  wire_healthy w -> wire_closed w = false ->
  exists w', start_send w m = Ok w' /\ wire_healthy w' /\ wire_closed w' = false
             /\ wire_written w' = wire_written w ++ [m].
Proof.
  intros Hh Hc. cbn. rewrite (wire_check_ok w Hh Hc). eexists; split; [reflexivity |].
  unfold wire_written. cbn. rewrite app_assoc. repeat split.
Qed.

Lemma wire_poll_flush_ok (w : Wire) :
  wire_healthy w -> wire_closed w = false ->
  exists w', poll_flush w = Ok w' /\ wire_healthy w' /\ wire_closed w' = false
             /\ wire_written w' = wire_written w.
Proof.
  intros Hh Hc. cbn. rewrite (wire_check_ok w Hh Hc). eexists; split; [reflexivity |].
  unfold wire_written. cbn. rewrite app_nil_r. repeat split.
Qed.

Lemma wire_poll_close_ok (w : Wire) :
  wire_healthy w -> wire_closed w = false ->
  exists w', poll_close w = Ok w' /\ wire_closed w' = true /\ wire_written w' = wire_written w.
Proof.
  intros Hh Hc. cbn. rewrite (wire_check_ok w Hh Hc). eexists; split; [reflexivity |].
  unfold wire_written. cbn. rewrite app_nil_r. repeat split.
Qed.

(** The connection's write side keeps the laws of a sound sink. *)
#[export] Instance SinkSpec_Wire : SinkSpec Wire := {
  written := wire_written;
  is_closed := wire_closed;
  healthy := wire_healthy;
  start_send_ok := wire_start_send_ok;
  poll_flush_ok := wire_poll_flush_ok;
  poll_close_ok := wire_poll_close_ok
}.

(** ** Properties of the echo task *)

Section Claims.

Context {S : Type} `{SinkSpec S}.

(** C19: The spawned task implements the echo: on a stream whose write
    half is sound and open, the task's [forward] writes exactly the text
    messages the read half yields up to the first non-text message, read
    error or end of stream, in order, ends as [echo_spec] says, and
    leaves the sink closed exactly when it completed. *)
Theorem echo_task_refines_echo_spec {WS R : Type} (split : WS -> S) (ws : WS)
    (tr : list Poll) (si' : S) (x : Exit) :
  healthy (split ws) -> is_closed (split ws) = false ->
  echo_task split (@Ok WS R ws) tr = Some (si', x) ->
  x = snd (echo_spec (ready_items tr))
  /\ written si' = written (split ws) ++ fst (echo_spec (ready_items tr))
  /\ is_closed si' = exit_closes x.
Proof.
  intros Hh Hc Ht. injection Ht as Hf.
  destruct (forward_spec tr None (split ws) Hh Hc) as (si'' & Hf' & Hw & Hcl).
  rewrite Hf in Hf'. injection Hf' as <- ->. auto.
Qed.

(** C20: A non-text message (binary, ping, pong or close) ends the echo:
    the text messages before it have been written, the sink is closed,
    the task completes, and nothing the peer sends after it is echoed. *)
Theorem echo_stops_at_non_text (pre post : list Poll) (m : Message) (si : S) :
  all_text (ready_items pre) = true -> is_text m = false ->
  healthy si -> is_closed si = false ->
  exists si', forward (pre ++ Ready (Some (Ok m)) :: post) None si = (si', Completed)
    /\ written si' = written si ++ messages (ready_items pre) /\ is_closed si' = true.
Proof.
  intros Ht Hm Hh Hc. destruct (forward_spec (pre ++ Ready (Some (Ok m)) :: post) None si Hh Hc)
    as (si' & Hf & Hw & Hcl).
  autorewrite with wsdb_rw in *. rewrite (echo_spec_text_prefix _ _ Ht) in *.
  cbn in *. rewrite Hm in *. cbn in *. rewrite app_nil_r in Hw. eauto.
Qed.

(** C21: An error from the read half, after any text messages, panics
    in the predicate's [unwrap], not in [expect]: the messages before it
    have been written and the sink is left open. *)
Theorem read_error_panics_in_unwrap (pre post : list Poll) (e : Error) (si : S) :
  all_text (ready_items pre) = true -> healthy si -> is_closed si = false ->
  exists si', forward (pre ++ Ready (Some (Err e)) :: post) None si = (si', PanicUnwrap e)
    /\ written si' = written si ++ messages (ready_items pre) /\ is_closed si' = false.
Proof.
  intros Ht Hh Hc. destruct (forward_spec (pre ++ Ready (Some (Err e)) :: post) None si Hh Hc)
    as (si' & Hf & Hw & Hcl).
  autorewrite with wsdb_rw in *. rewrite (echo_spec_text_prefix _ _ Ht) in *.
  cbn in *. rewrite app_nil_r in Hw. eauto.
Qed.

(** C22: While the write half is sound, the task never panics with
    [expect("failed to forward message")]: that panic comes only from a
    failing sink. *)
Theorem forward_expect_only_on_sink_error (tr : list Poll) (si si' : S) (msg : string)
    (e : Error) :
  healthy si -> is_closed si = false -> forward tr None si <> (si', PanicExpect msg e).
Proof.
  intros Hh Hc Hf. destruct (forward_spec tr None si Hh Hc) as (si'' & Hf' & _ & _).
  rewrite Hf in Hf'. injection Hf' as _ He. exact (echo_spec_no_expect _ msg e (eq_sym He)).
Qed.

(** C29: The waits of the read half are unobservable: a trace and the
    same trace without its [Pending] events (which flush the sink) end
    the same way and leave sinks that have accepted the same messages
    and are equally closed. *)
Theorem pending_unobservable (tr : list Poll) (si : S) :
  healthy si -> is_closed si = false ->
  snd (forward tr None si) = snd (forward (strip_pending tr) None si)
  /\ sink_equiv (fst (forward tr None si)) (fst (forward (strip_pending tr) None si)).
Proof.
  intros Hh Hc.
  destruct (forward_spec tr None si Hh Hc) as (s1 & -> & W1 & C1).
  destruct (forward_spec (strip_pending tr) None si Hh Hc) as (s2 & -> & W2 & C2).
  autorewrite with wsdb_rw in *. cbn [fst snd]. split; [reflexivity | split; congruence].
Qed.

End Claims.

(** When the connection's write side has failed, the first text message
    makes the task panic in [expect], whatever follows. *)
Lemma broken_wire_panics_in_expect (e : Error) (s : string) (tr : list Poll) :
  forward (Ready (Some (Ok (Text s))) :: tr) None (broken_wire e)
  = (broken_wire e, PanicExpect FORWARD_FAILED e).
Proof. destruct tr; reflexivity. Qed.

(** The predicate's [unwrap] runs before [Forward] sees an item, so
    [TakeWhile] never hands [Forward] a read error. *)
Lemma take_while_next_no_err (p : Poll) (e : Error) : take_while_next p <> TWItem (Err e).
Proof. destruct p as [[[m | e0] |] |]; cbn; try destruct (is_text m); discriminate. Qed.

Section FailedSink.

Context {S : Type} `{Sink S}.

(** C23: On a write half whose every operation fails with [e] (the
    connection is gone), the first event of the read half decides how
    the task ends: a read error panics in [unwrap]; anything else (a
    text message to send, the end of the stream, a non-text message that
    closes the sink, a wait that flushes it) panics in
    [expect("failed to forward message")] with [e], and the sink is
    left as it was. *)
Theorem failed_sink_panics_in_expect (si : S) (e : Error) (p : Poll) (tr : list Poll) :
  (forall m, start_send si m = Err e) -> poll_flush si = Err e -> poll_close si = Err e ->
  forward (p :: tr) None si
  = (si, match take_while_next p with
         | TWPanic e' => PanicUnwrap e'
         | _ => PanicExpect FORWARD_FAILED e
         end).
Proof.
  intros Hs Hf Hc. cbn [forward].
  destruct (take_while_next p) as [[m | e'] | | | e'] eqn:Ep;
    [destruct tr; cbn; rewrite Hs | exfalso; exact (take_while_next_no_err p e' Ep)
    | rewrite Hc | rewrite Hf |]; reflexivity.
Qed.

End FailedSink.

(** ** Concrete runs *)

(** "hello", a wait, "world", a ping, then "lost". *)
Definition tr_pre : list Poll :=
  [Ready (Some (Ok (Text "hello"))); NotReady; Ready (Some (Ok (Text "world")))].
Definition tr_post : list Poll := [Ready (Some (Ok (Text "lost")))].
Definition tr_ping : list Poll := tr_pre ++ Ready (Some (Ok (Ping []))) :: tr_post.

Definition wire_done : Wire := mkWire [Text "hello"; Text "world"] [] true None.

Lemma echo_task_refines_echo_spec_witness :
  wire_healthy fresh_wire /\ wire_closed fresh_wire = false
  /\ echo_task (fun _ : unit => fresh_wire) (@Ok unit unit tt) tr_ping = Some (wire_done, Completed)
  /\ Completed = snd (echo_spec (ready_items tr_ping))
  /\ wire_written wire_done = wire_written fresh_wire ++ fst (echo_spec (ready_items tr_ping))
  /\ wire_closed wire_done = exit_closes Completed.
Proof.
  assert (Ht : echo_task (fun _ : unit => fresh_wire) (@Ok unit unit tt) tr_ping
               = Some (wire_done, Completed)) by reflexivity.
  split; [reflexivity | split; [reflexivity | split; [exact Ht |]]].
  exact (echo_task_refines_echo_spec (fun _ : unit => fresh_wire) tt tr_ping wire_done Completed
           eq_refl eq_refl Ht).
Defined.

Lemma echo_stops_at_non_text_witness :
  all_text (ready_items tr_pre) = true /\ is_text (Ping []) = false
  /\ exists w', forward (tr_pre ++ Ready (Some (Ok (Ping []))) :: tr_post) None fresh_wire
                = (w', Completed)
      /\ wire_written w' = wire_written fresh_wire ++ messages (ready_items tr_pre)
      /\ wire_closed w' = true.
Proof.
  split; [reflexivity | split; [reflexivity |]].
  exact (echo_stops_at_non_text tr_pre tr_post (Ping []) fresh_wire eq_refl eq_refl eq_refl eq_refl).
Defined.

Lemma read_error_panics_in_unwrap_witness :
  all_text (ready_items tr_pre) = true
  /\ exists w', forward (tr_pre ++ Ready (Some (Err ConnectionClosed)) :: tr_post) None fresh_wire
                = (w', PanicUnwrap ConnectionClosed)
      /\ wire_written w' = wire_written fresh_wire ++ messages (ready_items tr_pre)
      /\ wire_closed w' = false.
Proof.
  split; [reflexivity |].
  exact (read_error_panics_in_unwrap tr_pre tr_post ConnectionClosed fresh_wire eq_refl eq_refl eq_refl).
Defined.

Lemma forward_expect_only_on_sink_error_witness :
  wire_healthy fresh_wire /\ wire_closed fresh_wire = false
  /\ forward tr_ping None fresh_wire <> (fresh_wire, PanicExpect FORWARD_FAILED Io).
Proof.
  split; [reflexivity | split; [reflexivity |]].
  exact (forward_expect_only_on_sink_error tr_ping fresh_wire fresh_wire FORWARD_FAILED Io
           eq_refl eq_refl).
Defined.

(** "a", then a wait: the wait flushes "a" to the peer; without it, "a"
    stays queued. The two wires differ and are equivalent. *)
Definition tr_wait : list Poll := [Ready (Some (Ok (Text "a"))); NotReady].

Lemma pending_unobservable_witness :
  wire_healthy fresh_wire /\ wire_closed fresh_wire = false
  /\ fst (forward tr_wait None fresh_wire) = mkWire [Text "a"] [] false None
  /\ fst (forward (strip_pending tr_wait) None fresh_wire) = mkWire [] [Text "a"] false None
  /\ snd (forward tr_wait None fresh_wire) = snd (forward (strip_pending tr_wait) None fresh_wire)
  /\ sink_equiv (fst (forward tr_wait None fresh_wire))
                (fst (forward (strip_pending tr_wait) None fresh_wire)).
Proof.
  split; [reflexivity | split; [reflexivity | split; [reflexivity | split; [reflexivity |]]]].
  exact (pending_unobservable tr_wait fresh_wire eq_refl eq_refl).
Defined.

Lemma failed_sink_panics_in_expect_witness :
  (forall m, start_send (broken_wire ConnectionClosed) m = Err ConnectionClosed)
  /\ poll_flush (broken_wire ConnectionClosed) = Err ConnectionClosed
  /\ poll_close (broken_wire ConnectionClosed) = Err ConnectionClosed
  /\ forward tr_ping None (broken_wire ConnectionClosed)
     = (broken_wire ConnectionClosed, PanicExpect FORWARD_FAILED ConnectionClosed).
Proof.
  assert (Hs : forall m, start_send (broken_wire ConnectionClosed) m = Err ConnectionClosed)
    by reflexivity.
  assert (Hf : poll_flush (broken_wire ConnectionClosed) = Err ConnectionClosed) by reflexivity.
  assert (Hc : poll_close (broken_wire ConnectionClosed) = Err ConnectionClosed) by reflexivity.
  split; [exact Hs | split; [exact Hf | split; [exact Hc |]]].
  exact (failed_sink_panics_in_expect (broken_wire ConnectionClosed) ConnectionClosed
           (Ready (Some (Ok (Text "hello")))) _ Hs Hf Hc).
Defined.

End Echo.
