(* ===== verification/Client.v ===== *)
(** * The page's WebSocket client (echo.rs 37-61)

    The page that [index] serves holds a status line, an input, a button
    and a list of lines. Its script opens [ws = new WebSocket(..)] on
    [/echo] and installs four handlers:
    - [ws.onopen] shows "Connected :)";
    - [ws.onclose] shows "Disconnected :(" and empties the lines;
    - [ws.onmessage] prepends a line with the message's data;
    - [send.onclick] sends the input's value and clears the input.

    [Page] is the part of the DOM and of the socket the script touches.
    [on_open], [on_close], [on_message] and [on_click] are the four
    handlers, as written in the script. [ws_send] is
    [WebSocket.send] of the WHATWG WebSockets standard: it throws
    [InvalidStateError] while the socket is connecting, sends a text
    frame while it is open, and discards the data once the socket is
    closing or closed. [client_step] is the browser's event loop for
    one event: user input, or a change of the socket's state with the
    handler it fires.

    The theorems are:
    - [page_invariant]: the status line always matches the socket's
      state, no line is shown unless the socket is or was open, and the
      script only ever sends text frames;
    - [click_when_not_open]: the error paths of the button;
    - [page_echo_round_trip]: composed with the server's echo loop of
      [Echo], the texts the user sends come back and are shown newest
      first. *)

From Stdlib Require Import String List.
From S2P Require Import Prelude Echo.

Import ListNotations.
Local Open Scope ws_scope.

Module Client.

Import Echo.

(** [WebSocket.readyState]. *)
Inductive ReadyState := CONNECTING | OPEN | CLOSING | CLOSED.

(** The exception [ws.send] throws while the socket is connecting. *)
Inductive DOMException := InvalidStateError.

(** The page's state: [status.innerText], the [<p>] children of [lines]
    in document order, [text.value], [ws.readyState], and the text
    frames [ws.send] has handed to the socket. *)
Record Page := mkPage {
  status_text : string;
  lines : list string;
  text_value : string;
  ready_state : ReadyState;
  outbox : list Message
}.

(** The page as loaded: [<p id="status">Connecting...</p>], an empty
    input, an empty [<div id="lines">], and a socket that is
    connecting. *)
Definition page_init : Page := mkPage "Connecting..." [] "" CONNECTING [].

Definition with_ready (r : ReadyState) (p : Page) : Page :=
  mkPage (status_text p) (lines p) (text_value p) r (outbox p).

(** [WebSocket.send(data)] with a string. *)
Definition ws_send (data : string) (p : Page) : result Page DOMException :=
  match ready_state p with
  | CONNECTING => Err InvalidStateError
  | OPEN => Ok (mkPage (status_text p) (lines p) (text_value p) OPEN (outbox p ++ [Text data]))
  | CLOSING | CLOSED => Ok p
  end.

(** [ws.onopen = function() { status.innerText = 'Connected :)'; }]. *)
Definition on_open (p : Page) : Page :=
  mkPage "Connected :)" (lines p) (text_value p) (ready_state p) (outbox p).

(** [ws.onclose = function() { status.innerText = 'Disconnected :(';
    lines.innerHTML = ''; }]. *)
Definition on_close (p : Page) : Page :=
  mkPage "Disconnected :(" [] (text_value p) (ready_state p) (outbox p).

(** [ws.onmessage = function(msg) { const line = document.createElement('p');
    line.innerText = msg.data; lines.prepend(line); }]. *)
Definition on_message (data : string) (p : Page) : Page :=
  mkPage (status_text p) (data :: lines p) (text_value p) (ready_state p) (outbox p).

(** [send.onclick = function() { ws.send(text.value); text.value = ''; }]:
    when [ws.send] throws, the input is not cleared. *)
Definition on_click (p : Page) : result Page DOMException :=
  p' <-? ws_send (text_value p) p ;;
  Ok (mkPage (status_text p') (lines p') "" (ready_state p') (outbox p')).

(** [MessageEvent.data] of a frame the browser hands to the script: the
    text of a text frame, a [Blob] for a binary one. Control frames are
    answered by the browser and reach no handler. *)
Definition message_data (m : Message) : option string :=
  match m with
  | Text s => Some s
  | Binary _ => Some "[object Blob]"%string
  | _ => None
  end.

(** What can happen to the page. *)
Inductive Event :=
| EvType (s : string)   (** the user types: [text.value] becomes [s] *)
| EvOpen                (** the handshake succeeded *)
| EvMessage (m : Message) (** a frame arrives *)
| EvClosing             (** the closing handshake began *)
| EvClose               (** the connection is closed (or failed) *)
| EvClick.              (** the user presses the button *)

(** The browser's event loop for one event. An exception thrown by a
    handler leaves the page as the handler had left it. *)
Definition client_step (p : Page) (e : Event) : Page :=
  match e with
  | EvType s => mkPage (status_text p) (lines p) s (ready_state p) (outbox p)
  | EvOpen =>
      match ready_state p with CONNECTING => on_open (with_ready OPEN p) | _ => p end
  | EvMessage m =>
      match ready_state p, message_data m with
      | OPEN, Some d => on_message d p
      | _, _ => p
      end
  | EvClosing =>
      match ready_state p with OPEN => with_ready CLOSING p | _ => p end
  | EvClose =>
      match ready_state p with CLOSED => p | _ => on_close (with_ready CLOSED p) end
  | EvClick =>
      match on_click p with Ok p' => p' | Err _ => p end
  end.

Definition client_run (evs : list Event) (p : Page) : Page := fold_left client_step evs p.

(** The status line the script shows in each state of the socket. *)
Definition status_of (r : ReadyState) : string :=
  match r with
  | CONNECTING => "Connecting..."
  | OPEN | CLOSING => "Connected :)"
  | CLOSED => "Disconnected :("
  end.

Definition page_inv (p : Page) : Prop :=
  status_text p = status_of (ready_state p)
  /\ (ready_state p = CONNECTING \/ ready_state p = CLOSED -> lines p = [])
  /\ forallb is_text (outbox p) = true.

(** The user types each text and presses the button. *)
Definition type_and_send (ts : list string) : list Event :=
  flat_map (fun t => [EvType t; EvClick]) ts.

(** Frames the read half of the server's stream yields, one per message. *)
Definition to_server (ms : list Message) : list Poll :=
  map (fun m => Ready (Some (Ok m))) ms.

(** ** The page's invariant *)

Lemma page_init_inv : page_inv page_init.
Proof. repeat split. Qed.

Lemma client_step_inv (p : Page) (e : Event) : page_inv p -> page_inv (client_step p e).
Proof.
  destruct p as [st ls tv r ob]. unfold page_inv. cbn. intros (Hs & Hl & Ho).
  destruct e as [s | | m | | |]; cbn; destruct r; cbn in *;
    try (destruct (message_data m)); cbn;
    repeat split; auto; try (intros [H | H]; discriminate).
  rewrite forallb_app, Ho. reflexivity.
Qed.

Lemma client_run_inv (evs : list Event) (p : Page) : page_inv p -> page_inv (client_run evs p).
Proof.
  revert p. induction evs as [|e evs IH]; intros p Hp; [exact Hp |].
  apply IH, client_step_inv, Hp.
Qed.

(** ** Runs of the page *)

Lemma client_run_cons (e : Event) (evs : list Event) (p : Page) :
  client_run (e :: evs) p = client_run evs (client_step p e).
Proof. reflexivity. Qed.

Lemma open_init : client_step page_init EvOpen = mkPage "Connected :)" [] "" OPEN [].
Proof. reflexivity. Qed.

(** With the socket open, typing and sending each text queues it as a
    text frame and leaves the input empty. *)
Lemma run_type_and_send (ts : list string) (st : string) (ls : list string) (ob : list Message) :
  client_run (type_and_send ts) (mkPage st ls "" OPEN ob) = mkPage st ls "" OPEN (ob ++ map Text ts).
Proof.
  revert ob. induction ts as [|t ts IH]; intros ob; cbn; [rewrite app_nil_r; reflexivity |].
  unfold type_and_send in IH. rewrite IH, <- app_assoc. reflexivity.
Qed.

(** With the socket open, each text frame that arrives is prepended. *)
Lemma run_messages (ts : list string) (st tv : string) (ls : list string) (ob : list Message) :
  client_run (map EvMessage (map Text ts)) (mkPage st ls tv OPEN ob)
  = mkPage st (rev ts ++ ls) tv OPEN ob.
Proof.
  revert ls. induction ts as [|t ts IH]; intros ls; [reflexivity |].
  cbn [map]. rewrite client_run_cons.
  cbn [client_step ready_state message_data]. unfold on_message.
  cbn [status_text lines text_value outbox rev]. rewrite IH, <- app_assoc. reflexivity.
Qed.

Lemma ready_items_to_server (ms : list Message) :
  ready_items (to_server ms) = map (fun m => Some (Ok m)) ms.
Proof. unfold to_server. induction ms as [|m ms IH]; cbn [map ready_items]; congruence. Qed.

(** The server's echo of text frames only: all of them, then a wait. *)
Lemma echo_spec_texts (ts : list string) :
  echo_spec (map (fun m => Some (Ok m)) (map Text ts)) = (map Text ts, Suspended).
Proof. induction ts as [|t ts IH]; cbn; [reflexivity | rewrite IH; reflexivity]. Qed.

(** ** Properties of the page *)

(** C32: Whatever happens to the page (input, the socket opening, frames
    arriving, the closing handshake, the connection closing, clicks, in
    any order), the status line matches the socket's state, no line is
    shown while the socket is connecting or once it is closed, and the
    script has only ever sent text frames. *)
Theorem page_invariant (evs : list Event) : page_inv (client_run evs page_init).
Proof. apply client_run_inv, page_init_inv. Qed.

(** C31: Pressing the button while the socket is not open sends
    nothing. Before it opens, [ws.send] throws [InvalidStateError] and
    the typed text stays in the input; once it is closing or closed, the
    text is cleared and silently dropped. *)
Theorem click_when_not_open (p : Page) :
  ready_state p <> OPEN ->
  outbox (client_step p EvClick) = outbox p
  /\ text_value (client_step p EvClick)
     = match ready_state p with CONNECTING => text_value p | _ => EmptyString end.
Proof. destruct p as [st ls tv [] ob]; cbn; intros H; [split; reflexivity | congruence | ..]; split; reflexivity. Qed.

Section RoundTrip.

Context {S : Type} `{SinkSpec S}.

(** C30: The page and the echo server together: once the socket is
    open, the texts the user types and sends are queued as text frames
    in order; the server's echo loop, on a sound write half, writes
    exactly those frames back and waits for more; and delivered to the
    page, they are shown newest first. *)
Theorem page_echo_round_trip (ts : list string) (si : S) :
  healthy si -> is_closed si = false -> written si = [] ->
  outbox (client_run (EvOpen :: type_and_send ts) page_init) = map Text ts
  /\ exists si',
       forward (to_server (outbox (client_run (EvOpen :: type_and_send ts) page_init))) None si
       = (si', Suspended)
       /\ written si' = map Text ts
       /\ lines (client_run (map EvMessage (written si'))
                            (client_run (EvOpen :: type_and_send ts) page_init)) = rev ts.
Proof.
  intros Hh Hc Hw. rewrite client_run_cons, open_init, run_type_and_send. cbn [outbox app]. split; [reflexivity |].
  destruct (forward_spec (to_server (map Text ts)) None si Hh Hc) as (si' & Hf & Hw' & _).
  rewrite ready_items_to_server, echo_spec_texts in Hf, Hw'. cbn in Hw'. rewrite Hw in Hw'. cbn [app] in Hw'.
  exists si'. split; [exact Hf | split; [exact Hw' |]].
  rewrite Hw', run_messages. cbn. apply app_nil_r.
Qed.

End RoundTrip.

(** ** Concrete runs *)

Definition p_connecting : Page := mkPage "Connecting..." [] "hi" CONNECTING [].

Lemma click_when_not_open_witness :
  ready_state p_connecting <> OPEN
  /\ outbox (client_step p_connecting EvClick) = outbox p_connecting
  /\ text_value (client_step p_connecting EvClick)
     = match ready_state p_connecting with CONNECTING => text_value p_connecting | _ => EmptyString end.
Proof.
  assert (H : ready_state p_connecting <> OPEN) by discriminate.
  split; [exact H | exact (click_when_not_open p_connecting H)].
Defined.

Lemma page_echo_round_trip_witness :
  wire_healthy fresh_wire /\ wire_closed fresh_wire = false /\ wire_written fresh_wire = []
  /\ outbox (client_run (EvOpen :: type_and_send ["hello"; "world"]%string) page_init)
     = map Text ["hello"; "world"]%string
  /\ exists w',
       forward (to_server (outbox (client_run (EvOpen :: type_and_send ["hello"; "world"]%string) page_init)))
         None fresh_wire = (w', Suspended)
       /\ wire_written w' = map Text ["hello"; "world"]%string
       /\ lines (client_run (map EvMessage (wire_written w'))
                  (client_run (EvOpen :: type_and_send ["hello"; "world"]%string) page_init))
          = rev ["hello"; "world"]%string.
Proof.
  split; [reflexivity | split; [reflexivity | split; [reflexivity |]]].
  exact (page_echo_round_trip ["hello"; "world"]%string fresh_wire eq_refl eq_refl eq_refl).
Defined.

End Client.
