(* ===== verification/Routes.v ===== *)
(** * The example's routes and its server ([echo.rs] 12-13, 28-70)

    [main] builds the server with [rocket::build().mount("/",
    routes![index, echo])]. The route [index] ([#[get("/")]]) returns a
    static page, wrapped in [Html]. The page's script opens a WebSocket
    back to the server, on [/echo]. The route [echo]
    ([#[get("/echo")]]) is the upgrade route of [Lifecycle].

    - [index_page] is the page's text, one string per source line.
      [Html_respond] is Rocket's [Html] responder on a [&str]: a sized
      body whose content type is replaced by [text/html].
    - [Route], [mount] and [dispatch] are Rocket's routing. A route
      matches on its method and the path of the URI, with the query
      dropped. A [HEAD] request with no [HEAD] route is answered by the
      [GET] route, with the body removed.
    - [serve] is the server after [launch] for one request. It hands a
      request for [/echo] to the echo route's [init] and answers [/]
      with the page.

    The theorems show that [main] routes a [GET] or [HEAD] for [/echo]
    to the echo route's [init] on the request's headers, answers [/]
    with the page as [text/html], and routes nothing else:
    [serve_not_found_iff] gives exactly the non-[POST] requests answered
    [404]. Not modelled: Rocket's rewriting of a [POST]'s method from a
    [_method] form field before routing (which is why that theorem
    leaves [POST] out), and [launch] itself (binding the socket, the
    accept loop), which is I/O. *)

From Stdlib Require Import String Ascii List.
From S2P Require Import Prelude Headers Responder Lifecycle.

Import ListNotations.
Local Open Scope string_scope.

Module Routes.

Import Responder Lifecycle.

(** A double quote and a line feed, to write the page's text. *)
Definition q : string := String (ascii_of_nat 34) EmptyString.
Definition nl : string := String (ascii_of_nat 10) EmptyString.

(** The raw string [r#"..."#] of [index] (echo.rs 30-64), line by line. *)
Definition index_lines : list string := [
   "<!DOCTYPE html>";
   "<html lang=" ++ q ++ "en" ++ q ++ ">";
   "    <head>";
   "        <title>WebSocket Echo Server</title>";
   "    </head>";
   "    <body>";
   "        <h1>Echo Server</h1>";
   "        <p id=" ++ q ++ "status" ++ q ++ ">Connecting...</p>";
   "        <input type=" ++ q ++ "text" ++ q ++ " id=" ++ q ++ "text" ++ q ++ " />";
   "        <button type=" ++ q ++ "button" ++ q ++ " id=" ++ q ++ "send" ++ q ++ ">Send</button>";
   "        <div id=" ++ q ++ "lines" ++ q ++ "></div>";
   "        <script type=" ++ q ++ "text/javascript" ++ q ++ ">";
   "            const lines = document.getElementById('lines');";
   "            const text = document.getElementById('text');";
   "            const status = document.getElementById('status');";
   "            const ws = new WebSocket('ws://' + location.host + '/echo');";
   "            ws.onopen = function() {";
   "                status.innerText = 'Connected :)';";
   "            };";
   "            ws.onclose = function() {";
   "                status.innerText = 'Disconnected :(';";
   "                lines.innerHTML = '';";
   "            };";
   "            ws.onmessage = function(msg) {";
   "                const line = document.createElement('p');";
   "                line.innerText = msg.data;";
   "                lines.prepend(line);";
   "            };";
   "            send.onclick = function() {";
   "                ws.send(text.value);";
   "                text.value = '';";
   "            };";
   "        </script>";
   "    </body>";
   "</html>"
].

Definition index_page : string := String.concat nl index_lines.

(** [rocket::response::content::Html]. *)
Record Html := mkHtml { html_body : string }.

(** [fn index() -> Html<&'static str>]. *)
Definition index (_ : unit) : Html := mkHtml index_page.

Definition CONTENT_TYPE : string := "Content-Type".
Definition TEXT_PLAIN : string := "text/plain; charset=utf-8".
Definition TEXT_HTML : string := "text/html; charset=utf-8".

Section WithConn.

Context {Conn : Type}.

(** The [Responder] of [&str]: a sized body, content type plain text. *)
Definition str_respond (s : string) : Response Conn :=
  with_header (Headers.Header_new CONTENT_TYPE TEXT_PLAIN) (with_sized_body s Response_build).

(** The [Responder] of [Html<R>]: [R]'s response, its content type
    replaced by HTML. *)
Definition Html_respond (h : Html) : Response Conn :=
  with_header (Headers.Header_new CONTENT_TYPE TEXT_HTML) (str_respond (html_body h)).

End WithConn.

(** ** Routing *)

(** [rocket::http::Method]. *)
Inductive Method := Get | Put | Post | Delete | Options | Head | Trace | Connect | Patch.

Definition method_eqb (a b : Method) : bool :=
  match a, b with
  | Get, Get | Put, Put | Post, Post | Delete, Delete | Options, Options
  | Head, Head | Trace, Trace | Connect, Connect | Patch, Patch => true
  | _, _ => false
  end.

(** The two handlers of the example. *)
Inductive Handler := HIndex | HEcho.

(** A route: its method, its path and its handler. *)
Record Route := mkRoute { r_method : Method; r_path : string; r_handler : Handler }.

(** [#[get("/")] fn index] and [#[get("/echo")] async fn echo]. *)
Definition index_route : Route := mkRoute Get "/" HIndex.
Definition echo_route : Route := mkRoute Get "/echo" HEcho.

(** [routes![index, echo]]. *)
Definition example_routes : list Route := [index_route; echo_route].

(** The base without its trailing slash, then the route's path: a base
    of [/] leaves the paths as they are. *)
Fixpoint strip_trailing_slash (s : string) : string :=
  match s with
  | EmptyString => EmptyString
  | String c EmptyString => if Ascii.eqb c "/"%char then EmptyString else String c EmptyString
  | String c s' => String c (strip_trailing_slash s')
  end.

Definition join_path (base path : string) : string := strip_trailing_slash base ++ path.

(** [Rocket::mount(base, routes)]. *)
Definition mount (base : string) (rs : list Route) : list Route :=
  map (fun r => mkRoute (r_method r) (join_path base (r_path r)) (r_handler r)) rs.

(** [rocket::build().mount("/", routes![index, echo])] in [main]. *)
Definition main_routes : list Route := mount "/" example_routes.

(** The characters of [s] before the first [c]. *)
Fixpoint take_until (c : ascii) (s : string) : string :=
  match s with
  | EmptyString => EmptyString
  | String c' s' => if Ascii.eqb c' c then EmptyString else String c' (take_until c s')
  end.

(** The path of a URI: what precedes the query. *)
Definition path_of (uri : string) : string := take_until "?"%char uri.

(** The first route with that method and path. *)
Definition find_route (rs : list Route) (m : Method) (path : string) : option Handler :=
  option_map r_handler
    (find (fun r => andb (method_eqb (r_method r) m) (String.eqb (r_path r) path)) rs).

(** Rocket's router; [HEAD] falls back to [GET]. *)
Definition dispatch (rs : list Route) (m : Method) (uri : string) : option Handler :=
  match find_route rs m (path_of uri), m with
  | Some h, _ => Some h
  | None, Head => find_route rs Get (path_of uri)
  | None, _ => None
  end.

(** ** The server *)

(** A request as the server reads it. *)
Record HttpRequest := mkHttpRequest {
  method : Method;
  uri : string;
  http_headers : Headers.HeaderMap
}.

Section Serve.

Context {Conn : Type}.

(** What the server does with one request. *)
Inductive Served :=
| SPage (resp : Response Conn)
| SEcho (s : Sys Conn)
| SNotFound.

(** The body of a [HEAD] response is removed. *)
Definition strip_body (m : Method) (r : Response Conn) : Response Conn :=
  match m with
  | Head => mkResponse (status r) (headers r) None (upgrade r)
  | _ => r
  end.

(** The launched server on one request: the route [index] answers with
    its page; the route [echo] is the upgrade route of [Lifecycle], from
    the request's headers; anything else is [404]. *)
Definition serve (w : World Conn) (req : HttpRequest) : Served :=
  match dispatch main_routes (method req) (uri req) with
  | Some HIndex => SPage (strip_body (method req) (Html_respond (index tt)))
  | Some HEcho => SEcho (init w (mkRequest (http_headers req)))
  | None => SNotFound
  end.

End Serve.

(** ** Routing lemmas *)

(** The two routes of [main], after mounting at [/]. *)
Lemma main_routes_eq : main_routes = [mkRoute Get "/" HIndex; mkRoute Get "/echo" HEcho].
Proof. reflexivity. Qed.

Lemma find_route_main (m : Method) (p : string) :
  find_route main_routes m p
  = if method_eqb Get m
    then if String.eqb "/" p then Some HIndex
         else if String.eqb "/echo" p then Some HEcho else None
    else None.
Proof.
  rewrite main_routes_eq. unfold find_route.
  destruct m; cbn [find andb method_eqb r_method r_path r_handler option_map];
    [destruct (String.eqb "/" p); [| destruct (String.eqb "/echo" p)] |..]; reflexivity.
Qed.

Lemma method_eqb_Get (m : Method) : method_eqb Get m = true <-> m = Get.
Proof. destruct m; cbn; split; congruence. Qed.

Lemma dispatch_echo (m : Method) (uri : string) :
  (m = Get \/ m = Head) -> path_of uri = "/echo" -> dispatch main_routes m uri = Some HEcho.
Proof. intros [-> | ->] Hp; unfold dispatch; rewrite !find_route_main, Hp; reflexivity. Qed.

Lemma dispatch_index (m : Method) (uri : string) :
  (m = Get \/ m = Head) -> path_of uri = "/" -> dispatch main_routes m uri = Some HIndex.
Proof. intros [-> | ->] Hp; unfold dispatch; rewrite !find_route_main, Hp; reflexivity. Qed.

(** ** Properties of the example's server *)


Section ServeProps.

Context {Conn : Type}.

(** C27: The server hands a [GET] (or [HEAD]) request for [/echo], with
    any query, to the echo route: the run of [Lifecycle] starts from
    [init] on the request's headers. *)
Theorem serve_echo_hands_off (w : World Conn) (m : Method) (u : string) (hs : Headers.HeaderMap) :
  (m = Get \/ m = Head) -> path_of u = "/echo" ->
  serve w (mkHttpRequest m u hs) = SEcho (init w (mkRequest hs)).
Proof. intros Hm Hp. unfold serve. cbn [method uri http_headers]. rewrite (dispatch_echo m u Hm Hp). reflexivity. Qed.

(** C28: A request for [/] gets the page as [200 OK] with a single
    [Content-Type], [text/html; charset=utf-8] (the [Html] wrapper
    replaces the plain-text type of [&str]), and the page as body,
    removed for [HEAD]. *)
Theorem index_served_as_html (w : World Conn) (m : Method) (u : string) (hs : Headers.HeaderMap) :
  (m = Get \/ m = Head) -> path_of u = "/" ->
  exists r, serve w (mkHttpRequest m u hs) = SPage r
    /\ status r = Status_Ok
    /\ Headers.get CONTENT_TYPE (headers r) = [TEXT_HTML]
    /\ body r = (if method_eqb Head m then None else Some index_page).
Proof.
  intros Hm Hp. unfold serve. cbn [method uri http_headers]. rewrite (dispatch_index m u Hm Hp).
  eexists. split; [reflexivity |]. destruct Hm as [-> | ->]; repeat split.
Qed.


End ServeProps.

(** ** Concrete requests *)

Definition handshake_headers : Headers.HeaderMap := req_headers req_valid.

Lemma serve_echo_hands_off_witness :
  (Get = Get \/ Get = Head) /\ path_of "/echo" = "/echo"
  /\ serve (@World_empty nat) (mkHttpRequest Get "/echo" handshake_headers)
     = SEcho (init World_empty (mkRequest handshake_headers)).
Proof.
  assert (Hm : Get = Get \/ Get = Head) by (left; reflexivity).
  assert (Hp : path_of "/echo" = "/echo") by reflexivity.
  split; [exact Hm | split; [exact Hp | exact (serve_echo_hands_off World_empty Get "/echo" _ Hm Hp)]].
Defined.

Lemma index_served_as_html_witness :
  (Head = Get \/ Head = Head) /\ path_of "/?v=2" = "/"
  /\ exists r, serve (@World_empty nat) (mkHttpRequest Head "/?v=2" []) = SPage r
    /\ status r = Status_Ok
    /\ Headers.get CONTENT_TYPE (headers r) = [TEXT_HTML]
    /\ body r = (if method_eqb Head Head then None else Some index_page).
Proof.
  assert (Hm : Head = Get \/ Head = Head) by (right; reflexivity).
  assert (Hp : path_of "/?v=2" = "/") by reflexivity.
  split; [exact Hm | split; [exact Hp | exact (index_served_as_html World_empty Head "/?v=2" [] Hm Hp)]].
Defined.


End Routes.
